(** * Warehouse slot optimiser: a shallow embedding of
      [warehouse_slot_optimiser.py] and the properties of its specification.

    Conventions of the model.
    - Text is modelled over the ASCII range: [string] of the Standard Library,
      with Python's [str.strip], [str.lower], [str.upper] and [in] written out
      for ASCII characters.
    - A cell of a table is a [cell]: Python's [None], the float [nan] (what the
      CSV reader yields for a blank field), an integer or a text; other
      floats are not modelled.  A column that a row reads with [.get] is an
      [option cell]: [None] when the row has no such key.
    - The columns that are only compared and copied ([Level], [Rack], the
      priority scores) have an abstract type of values with a total preorder
      ([Comparable]); a cell of such a column is a [val]: [None], [nan] or a
      value.
    - The tables have the columns the program reads by name ([SKU_ID], [Zone],
      [Aisle], [Rack], [Level], [Location_ID]); the index of the location
      frame is positional, as [prepare_locations] leaves it.
    - [sort_values] on one column calls the numerical library's default
      (quicksort) argsort, of which only the contract is known: it is a
      parameter ([Argsort]).  [sort_values] on several columns is a stable
      lexicographic sort. *)

From Stdlib Require Import ZArith Ascii String.
From stdpp Require Import base list strings pretty sorting.

Local Open Scope string_scope.
Local Open Scope Z_scope.
Local Open Scope list_scope.

(** ** Text primitives of Python, on ASCII text *)

Module Text.

(** [c.isspace()] for an ASCII character: TAB..CR, FS..US and the space. *)
Definition isspace (c : ascii) : bool :=
  let n := nat_of_ascii c in
  ((9 <=? n)%nat && (n <=? 13)%nat) || ((28 <=? n)%nat && (n <=? 32)%nat).

Definition isdigit (c : ascii) : bool :=
  let n := nat_of_ascii c in (48 <=? n)%nat && (n <=? 57)%nat.

Definition lower_char (c : ascii) : ascii :=
  let n := nat_of_ascii c in
  if (65 <=? n)%nat && (n <=? 90)%nat then ascii_of_nat (n + 32) else c.

Definition upper_char (c : ascii) : ascii :=
  let n := nat_of_ascii c in
  if (97 <=? n)%nat && (n <=? 122)%nat then ascii_of_nat (n - 32) else c.

Fixpoint map_chars (f : ascii -> ascii) (s : string) : string :=
  match s with
  | EmptyString => EmptyString
  | String c t => String (f c) (map_chars f t)
  end.

(** [s.lower()] and [s.upper()] *)
Definition lower : string -> string := map_chars lower_char.
Definition upper : string -> string := map_chars upper_char.

Fixpoint lstrip (s : string) : string :=
  match s with
  | EmptyString => EmptyString
  | String c t => if isspace c then lstrip t else s
  end.

Fixpoint rstrip (s : string) : string :=
  match s with
  | EmptyString => EmptyString
  | String c t =>
      match rstrip t with
      | EmptyString => if isspace c then EmptyString else String c EmptyString
      | t' => String c t'
      end
  end.

(** [s.strip()] *)
Definition strip (s : string) : string := rstrip (lstrip s).

(** [needle in hay] *)
Fixpoint contains (needle hay : string) : bool :=
  String.prefix needle hay ||
  match hay with
  | EmptyString => false
  | String _ t => contains needle t
  end.

(** The maximal run of digits at the start of [s]: what [\d+] consumes. *)
Fixpoint digit_run (s : string) : string :=
  match s with
  | EmptyString => EmptyString
  | String c t => if isdigit c then String c (digit_run t) else EmptyString
  end.

(** [re.search(r"(\d+)", s)]: group 1 of the leftmost match, if any. *)
Fixpoint search_digits (s : string) : option string :=
  match s with
  | EmptyString => None
  | String c t => if isdigit c then Some (digit_run s) else search_digits t
  end.

(** [int(ds)] for a text of digits, most significant first. *)
Fixpoint int_digits (acc : Z) (ds : string) : Z :=
  match ds with
  | EmptyString => acc
  | String c t => int_digits (10 * acc + (Z.of_nat (nat_of_ascii c) - 48)) t
  end.

Definition int_of (ds : string) : Z := int_digits 0 ds.

End Text.

(** ** Cells *)

Inductive cell : Type :=
  | PyNone
  | NaN
  | Int (z : Z)
  | Str (s : string).

(** [pd.isna(c)] *)
Definition isna (c : cell) : bool :=
  match c with
  | PyNone | NaN => true
  | Int _ | Str _ => false
  end.

(** [str(c)] *)
Definition str (c : cell) : string :=
  match c with
  | PyNone => "None"
  | NaN => "nan"
  | Int z => pretty z
  | Str s => s
  end.

#[export] Instance cell_eq_dec : EqDecision cell.
Proof. solve_decision. Defined.

(** [row.get(key, default)] *)
Definition get (field : option cell) (default : cell) : cell :=
  match field with
  | Some c => c
  | None => default
  end.

(** A cell of a column whose values are only compared and copied: Python's
    [None], [nan], or a value of the column's type. *)
Inductive val (A : Type) : Type :=
  | VNone
  | VNaN
  | Val (a : A).
Arguments VNone {A}.
Arguments VNaN {A}.
Arguments Val {A} a.

Definition val_isna {A} (v : val A) : bool :=
  match v with
  | Val _ => false
  | VNone | VNaN => true
  end.

(** The comparison of a column's values: a total preorder, as [<=] is on
    numbers and on texts. *)
Class Comparable (A : Type) : Type := {
  cmp_le : A -> A -> bool;
  cmp_le_total : forall x y, cmp_le x y = true \/ cmp_le y x = true;
  cmp_le_trans : forall x y z, cmp_le x y = true -> cmp_le y z = true -> cmp_le x z = true;
}.

(** Integers, compared by [<=]. *)
#[export] Instance Z_comparable : Comparable Z.
Proof.
  refine {| cmp_le := Z.leb |}.
  - intros x y. rewrite !Z.leb_le. lia.
  - intros x y z. rewrite !Z.leb_le. lia.
Defined.

(** Missing values sort last, whatever the direction ([na_position="last"]). *)
Definition na_last_le {A} `{!Comparable A} (x y : val A) : bool :=
  match x, y with
  | Val a, Val b => cmp_le a b
  | Val _, _ => true
  | _, Val _ => false
  | _, _ => true
  end.

(** Descending order of a column with the missing values last: the order in
    which [sort_values(col, ascending=False)] must leave two rows. *)
Definition desc_na_last_le {A} `{!Comparable A} (x y : val A) : bool :=
  match x, y with
  | Val a, Val b => cmp_le b a
  | Val _, _ => true
  | _, Val _ => false
  | _, _ => true
  end.

(** ** Sorting *)

(** [l.take(idxs)]: the rows of [l] at the positions [idxs]. *)
Definition iloc {A} (idxs : list nat) (l : list A) : list A :=
  omap (fun i => l !! i) idxs.

(** The numerical library's [argsort] with the default kind: the positions of
    the keys in ascending order.  The algorithm is not part of this program;
    its contract is that the positions are a permutation and that the keys
    taken in that order ascend. *)
Class Argsort (K : Type) `{!Comparable K} : Type := {
  argsort : list K -> list nat;
  argsort_perm : forall ks, argsort ks ≡ₚ seq 0 (length ks);
  argsort_sorted : forall ks,
    StronglySorted (fun a b => cmp_le a b = true) (iloc (argsort ks) ks);
}.

(** Insertion of [x], which stood before every element of [l], into the sorted
    [l]: before the first element that is not smaller. *)
Fixpoint insert_sorted {A} (le : A -> A -> bool) (x : A) (l : list A) : list A :=
  match l with
  | [] => [x]
  | y :: l' => if le x y then x :: l else y :: insert_sorted le x l'
  end.

(** A stable sort: what [sort_values] does on several columns. *)
Fixpoint stable_sort {A} (le : A -> A -> bool) (l : list A) : list A :=
  match l with
  | [] => []
  | x :: l' => insert_sorted le x (stable_sort le l')
  end.

(** One column of a lexicographic comparison: decided here when the two
    values differ, by [rest] when they are equivalent. *)
Definition lex_le {A} (le : A -> A -> bool) (x y : A) (rest : bool) : bool :=
  if negb (le y x) then true
  else if negb (le x y) then false
  else rest.

(** [df.sort_values(col, ascending=False)] on the rows [rows] with the column
    [key]: the rows without a value go last, in their order; the others are
    reversed, arg-sorted ascending, and reversed again. *)
Definition with_key {A K} (key : A -> val K) (r : A) : option (K * A) :=
  match key r with
  | Val k => Some (k, r)
  | VNone | VNaN => None
  end.

Definition sort_values_desc {A K} `{Argsort K} (key : A -> val K) (rows : list A) : list A :=
  let non_nans := reverse (omap (with_key key) rows) in
  let nans := filter (fun r => val_isna (key r) = true) rows in
  let sorted := iloc (argsort non_nans.*1) non_nans in
  (reverse sorted).*2 ++ nans.

(** An argsort that keeps equal keys in their order, and one that reverses
    them: both fulfil the contract. *)
Fixpoint index_keys {K} (i : nat) (ks : list K) : list (K * nat) :=
  match ks with
  | [] => []
  | k :: ks' => (k, i) :: index_keys (S i) ks'
  end.

Definition argsort_stable {K} `{!Comparable K} (ks : list K) : list nat :=
  (stable_sort (fun a b => cmp_le a.1 b.1) (index_keys 0 ks)).*2.

Definition argsort_reversing {K} `{!Comparable K} (ks : list K) : list nat :=
  (reverse (stable_sort (fun a b => cmp_le b.1 a.1) (index_keys 0 ks))).*2.

(** ** The vocabulary of the compatibility rules *)

Module Reference.

(** These definitions follow the words of the specification, not the source.

    The text of a field: the empty text when the field is missing or absent. *)
Definition field_text (f : option cell) : string :=
  match f with
  | None => ""
  | Some c => if isna c then "" else str c
  end.

(** A field is absent when the row has no such key or the cell holds no
    value ([None], or [nan]: what the loader makes of an empty field).  A
    cell that holds a text is not absent, even when the text is empty. *)
Definition field_absent (f : option cell) : bool :=
  match f with
  | None => true
  | Some c => isna c
  end.

(** A field is absent or empty when nothing is left of its text once it is
    trimmed: it is absent, or its cell holds an empty or a blank text. *)
Definition field_empty (f : option cell) : bool :=
  String.eqb (Text.strip (field_text f)) "".

Definition eq_ci (a b : string) : bool :=
  String.eqb (Text.lower a) (Text.lower b).

Definition contains_ci (needle hay : string) : bool :=
  Text.contains (Text.lower needle) (Text.lower hay).

Inductive size_code : Type := S_ | M_ | L_.

Definition code_text (c : size_code) : string :=
  match c with
  | S_ => "S"
  | M_ => "M"
  | L_ => "L"
  end.

(** Small -> S, Medium -> M, Large -> L; anything else is unrecognized. *)
Definition mapped_code (size : string) : option size_code :=
  if String.eqb size "Small" then Some S_
  else if String.eqb size "Medium" then Some M_
  else if String.eqb size "Large" then Some L_
  else None.

End Reference.

(** ** The tables *)

Inductive exn : Type :=
  | ValueError (msg : string)
  | KeyError (key : string).

Section Model.

Context {LevelT RackT ScoreT : Type}.
Context `{!Comparable LevelT, !Comparable RackT, !Comparable ScoreT}.

(** A row of the SKU table.  The row stores a value for both score columns;
    the value of a column that the frame's index does not list is never
    read. *)
Record SkuRow : Type := {
  SKU_ID : cell;
  AI_Priority_Score_100 : val ScoreT;
  AI_Priority_Score : val ScoreT;
  SKU_Size_Class : option cell;
  Handling_Type : option cell;
  Family_or_Category : option cell;
}.

Record SkuFrame : Type := {
  sku_columns : list string;
  sku_rows : list SkuRow;
}.

(** A row of the location table as loaded. *)
Record LocRow : Type := {
  Location_ID : cell;
  Zone : cell;
  Aisle : cell;
  Rack : val RackT;
  Level : val LevelT;
  Allowed_Size_Class : option cell;
  Special_Constraint : option cell;
}.

(** A row of the frame [prepare_locations] returns: the loaded row and the
    three columns it adds. *)
Record RankedLoc : Type := {
  row : LocRow;
  AisleNum : Z;
  ZoneRank : Z;
  Used_Slots : Z;
}.

(** A row of the output. *)
Record Assignment : Type := {
  out_SKU_ID : cell;
  out_Zone : cell;
  out_Aisle : cell;
  out_Rack : val RackT;
  out_Level : val LevelT;
  out_Location_ID : cell;
  out_Priority_Score : val ScoreT;
  out_Handling_Type : cell;
  out_SKU_Size_Class : cell;
}.

Definition MAX_SKUS_PER_LOCATION : Z := 5.

Definition has_column (name : string) (sku_df : SkuFrame) : bool :=
  bool_decide (name ∈ sku_columns sku_df).

Definition missing_score_message : string :=
  "SKU file must contain 'AI_Priority_Score_100'. Make sure you ran the AI agent and used 'sku_with_ai_priority.csv'.".

Definition normalise_cols (sku_df : SkuFrame) (loc_df : list LocRow)
  : exn + (SkuFrame * list LocRow) :=
  if negb (has_column "AI_Priority_Score_100" sku_df) then
    inl (ValueError missing_score_message)
  else inr (sku_df, loc_df).

(** ** The compatibility checker *)

Definition size_map (k : string) : option string :=
  if String.eqb k "Small" then Some "S"
  else if String.eqb k "Medium" then Some "M"
  else if String.eqb k "Large" then Some "L"
  else None.

Definition size_fits (sku_size allowed : cell) : bool :=
  if isna allowed then true
  else
    match size_map (Text.strip (str sku_size)) with
    | None => true
    | Some sku_code =>
        let allowed := Text.upper (Text.strip (str allowed)) in
        if String.eqb allowed sku_code then true
        else if String.eqb allowed "M+L"
                && (String.eqb sku_code "M" || String.eqb sku_code "L") then true
        else false
    end.

Definition can_store (sku_row : SkuRow) (loc_row : RankedLoc) : bool :=
  if negb (size_fits (get (SKU_Size_Class sku_row) PyNone)
                     (get (Allowed_Size_Class (row loc_row)) PyNone)) then false
  else
    let handling := Text.lower (Text.strip (str (get (Handling_Type sku_row) (Str "")))) in
    let special :=
      Text.lower (Text.strip (str (get (Special_Constraint (row loc_row)) (Str "")))) in
    if Text.contains "fragile-only" special && negb (String.eqb handling "fragile") then false
    else
      let family :=
        Text.lower (Text.strip (str (get (Family_or_Category sku_row) (Str "")))) in
      if Text.contains "chilled" special && Text.contains "hazard" family then false
      else true.

(** The four rules as the specification words them, in its order: the size
    rule, the fragile-only rule, the chilled and hazard rule, and compatible
    otherwise.

    The size rule, word for word: the SKU size is mapped as it stands, and an
    allowed size that is absent or empty is compatible with any SKU. *)
Definition rule_size_fit_claimed (sku_row : SkuRow) (loc_row : RankedLoc) : bool :=
  match Reference.mapped_code (Reference.field_text (SKU_Size_Class sku_row)) with
  | None => true
  | Some code =>
      if Reference.field_empty (Allowed_Size_Class (row loc_row)) then true
      else
        let allowed :=
          Text.strip (Reference.field_text (Allowed_Size_Class (row loc_row))) in
        Reference.eq_ci allowed (Reference.code_text code)
        || (Reference.eq_ci allowed "M+L"
            && match code with
               | Reference.M_ | Reference.L_ => true
               | Reference.S_ => false
               end)
  end.

(** The size rule as amended, in two places: the SKU size is trimmed before
    it is mapped, and only an allowed size that is absent is compatible with
    any SKU, an empty or blank text being a code that no SKU has. *)
Definition rule_size_fit (sku_row : SkuRow) (loc_row : RankedLoc) : bool :=
  match Reference.mapped_code (Text.strip (Reference.field_text (SKU_Size_Class sku_row))) with
  | None => true
  | Some code =>
      if Reference.field_absent (Allowed_Size_Class (row loc_row)) then true
      else
        let allowed :=
          Text.strip (Reference.field_text (Allowed_Size_Class (row loc_row))) in
        Reference.eq_ci allowed (Reference.code_text code)
        || (Reference.eq_ci allowed "M+L"
            && match code with
               | Reference.M_ | Reference.L_ => true
               | Reference.S_ => false
               end)
  end.

Definition rule_fragile_only_rejects (sku_row : SkuRow) (loc_row : RankedLoc) : bool :=
  Reference.contains_ci "fragile-only"
    (Reference.field_text (Special_Constraint (row loc_row)))
  && negb (Reference.eq_ci
             (Text.strip (Reference.field_text (Handling_Type sku_row))) "fragile").

Definition rule_chilled_rejects (sku_row : SkuRow) (loc_row : RankedLoc) : bool :=
  Reference.contains_ci "chilled"
    (Reference.field_text (Special_Constraint (row loc_row)))
  && Reference.contains_ci "hazard"
       (Reference.field_text (Family_or_Category sku_row)).

(** The four rules in order, with the size rule word for word. *)
Definition can_store_claimed (sku_row : SkuRow) (loc_row : RankedLoc) : bool :=
  if negb (rule_size_fit_claimed sku_row loc_row) then false
  else if rule_fragile_only_rejects sku_row loc_row then false
  else if rule_chilled_rejects sku_row loc_row then false
  else true.

(** The four rules in order, with the size rule as amended. *)
Definition can_store_reference (sku_row : SkuRow) (loc_row : RankedLoc) : bool :=
  if negb (rule_size_fit sku_row loc_row) then false
  else if rule_fragile_only_rejects sku_row loc_row then false
  else if rule_chilled_rejects sku_row loc_row then false
  else true.

(** ** The location ranker *)

Definition zone_rank (zone : cell) : Z :=
  match zone with
  | Str z =>
      if String.eqb z "Golden" then 0
      else if String.eqb z "Standard" then 1
      else if String.eqb z "Overflow" then 2
      else 3
  | PyNone | NaN | Int _ => 3
  end.

Definition aisle_num (a : cell) : Z :=
  if isna a then 0
  else
    match Text.search_digits (str a) with
    | Some m => Text.int_of m
    | None => 0
    end.

Definition add_columns (r : LocRow) : RankedLoc :=
  {| row := r;
     AisleNum := aisle_num (Aisle r);
     ZoneRank := zone_rank (Zone r);
     Used_Slots := 0 |}.

(** The order of [by=["ZoneRank", "Level", "AisleNum", "Rack"]], all
    ascending. *)
Definition rank_le (a b : RankedLoc) : bool :=
  lex_le Z.leb (ZoneRank a) (ZoneRank b)
    (lex_le na_last_le (Level (row a)) (Level (row b))
       (lex_le Z.leb (AisleNum a) (AisleNum b)
          (na_last_le (Rack (row a)) (Rack (row b))))).

Definition prepare_locations (loc_df : list LocRow) : list RankedLoc :=
  stable_sort rank_le (map add_columns loc_df).

(** Two locations tie when neither sorts before the other: their four keys
    are equivalent. *)
Definition same_rank (a b : RankedLoc) : bool := rank_le a b && rank_le b a.

(** ** The assignment engine *)

(** [sku_row.get("AI_Priority_Score_100", sku_row.get("AI_Priority_Score", None))]
    for a row of a frame with the columns [columns]. *)
Definition priority_score (columns : list string) (sku_row : SkuRow) : val ScoreT :=
  if bool_decide ("AI_Priority_Score_100" ∈ columns) then AI_Priority_Score_100 sku_row
  else if bool_decide ("AI_Priority_Score" ∈ columns) then AI_Priority_Score sku_row
  else VNone.

Definition placed (columns : list string) (sku_row : SkuRow) (loc_row : RankedLoc)
  : Assignment :=
  {| out_SKU_ID := SKU_ID sku_row;
     out_Zone := Zone (row loc_row);
     out_Aisle := Aisle (row loc_row);
     out_Rack := Rack (row loc_row);
     out_Level := Level (row loc_row);
     out_Location_ID := Location_ID (row loc_row);
     out_Priority_Score := priority_score columns sku_row;
     out_Handling_Type := get (Handling_Type sku_row) PyNone;
     out_SKU_Size_Class := get (SKU_Size_Class sku_row) PyNone |}.

Definition unplaced (columns : list string) (sku_row : SkuRow) : Assignment :=
  {| out_SKU_ID := SKU_ID sku_row;
     out_Zone := PyNone;
     out_Aisle := PyNone;
     out_Rack := VNone;
     out_Level := VNone;
     out_Location_ID := PyNone;
     out_Priority_Score := priority_score columns sku_row;
     out_Handling_Type := get (Handling_Type sku_row) PyNone;
     out_SKU_Size_Class := get (SKU_Size_Class sku_row) PyNone |}.

(** The inner loop, from the row at position [loc_idx] on: the position and
    the row of the first location that has room and can store the SKU. *)
Fixpoint scan (sku_row : SkuRow) (loc_rows : list RankedLoc) (loc_idx : nat)
  : option (nat * RankedLoc) :=
  match loc_rows with
  | [] => None
  | loc_row :: rest =>
      if Used_Slots loc_row >=? MAX_SKUS_PER_LOCATION then scan sku_row rest (S loc_idx)
      else if negb (can_store sku_row loc_row) then scan sku_row rest (S loc_idx)
      else Some (loc_idx, loc_row)
  end.

(** [loc_df.at[loc_idx, "Used_Slots"] = used] *)
Definition set_used (used : Z) (loc_row : RankedLoc) : RankedLoc :=
  {| row := row loc_row;
     AisleNum := AisleNum loc_row;
     ZoneRank := ZoneRank loc_row;
     Used_Slots := used |}.

(** One turn of the outer loop: the record appended and the location frame
    after it. *)
Definition assign_one (columns : list string) (sku_row : SkuRow) (loc_df : list RankedLoc)
  : Assignment * list RankedLoc :=
  match scan sku_row loc_df 0 with
  | Some (loc_idx, loc_row) =>
      (placed columns sku_row loc_row,
       alter (set_used (Used_Slots loc_row + 1)) loc_idx loc_df)
  | None => (unplaced columns sku_row, loc_df)
  end.

Fixpoint assign_loop (columns : list string) (sku_rows : list SkuRow)
    (loc_df : list RankedLoc) (assignments : list Assignment)
  : list Assignment * list RankedLoc :=
  match sku_rows with
  | [] => (assignments, loc_df)
  | sku_row :: rest =>
      let '(record, loc_df') := assign_one columns sku_row loc_df in
      assign_loop columns rest loc_df' (assignments ++ [record])
  end.

(** A location qualifies for a SKU when it has room left and can store it. *)
Definition has_room (loc_row : RankedLoc) : bool :=
  Used_Slots loc_row <? MAX_SKUS_PER_LOCATION.

Definition qualifies (sku_row : SkuRow) (loc_row : RankedLoc) : bool :=
  has_room loc_row && can_store sku_row loc_row.

(** The state in which one slot is left for two SKUs: the location at
    position [i] is [slot] up to its counter, with one place left, and no
    other location qualifies for either SKU. *)
Definition last_slot (sku_a sku_b : SkuRow) (slot : RankedLoc) (i : nat)
    (loc_df : list RankedLoc) : Prop :=
  (exists s, loc_df !! i = Some s /\ row s = row slot
             /\ Used_Slots s = MAX_SKUS_PER_LOCATION - 1)
  /\ forall j l, loc_df !! j = Some l -> j <> i ->
       qualifies sku_a l = false /\ qualifies sku_b l = false.

(** A record names a location when one of its five location fields is set. *)
Definition names_location (r : Assignment) : bool :=
  negb (isna (out_Zone r) && isna (out_Aisle r) && val_isna (out_Rack r)
        && val_isna (out_Level r) && isna (out_Location_ID r)).

(** The number of records that name the location [id]. *)
Definition assigned_to (id : cell) (out : list Assignment) : nat :=
  length (filter (fun r => out_Location_ID r = id) out).

Context `{!Argsort ScoreT}.

(** The rows of the SKU frame in the order the engine takes them. *)
Definition processing_order (sku_df : SkuFrame) : exn + list SkuRow :=
  if has_column "AI_Priority_Score_100" sku_df then
    inr (sort_values_desc AI_Priority_Score_100 (sku_rows sku_df))
  else if has_column "AI_Priority_Score" sku_df then
    inr (sort_values_desc AI_Priority_Score (sku_rows sku_df))
  else inl (KeyError "AI_Priority_Score").

(** [assign_skus]: the assignments, and the location frame as the run leaves
    it (the source updates the caller's frame in place). *)
Definition assign_skus (sku_df : SkuFrame) (loc_df : list RankedLoc)
  : exn + (list Assignment * list RankedLoc) :=
  match processing_order sku_df with
  | inl e => inl e
  | inr sorted => inr (assign_loop (sku_columns sku_df) sorted loc_df [])
  end.

(** ** The run *)

(** What a run leaves behind: the content of the output file, once written. *)
Record World : Type := {
  output_file : option (list Assignment);
}.

Definition M (A : Type) : Type := World -> (exn + A) * World.

#[local] Instance M_ret : MRet M := fun A a w => (inr a, w).
#[local] Instance M_bind : MBind M := fun A B f m w =>
  match m w with
  | (inl e, w') => (inl e, w')
  | (inr a, w') => f a w'
  end.

Definition lift {A} (r : exn + A) : M A := fun w => (r, w).

Definition to_csv (assignment_df : list Assignment) : M unit :=
  fun _ => (inr tt, {| output_file := Some assignment_df |}).

(** [assignment_df["Location_ID"]]: a frame built from no record has no
    column. *)
Definition location_id_column (assignment_df : list Assignment) : exn + list cell :=
  match assignment_df with
  | [] => inl (KeyError "Location_ID")
  | _ :: _ => inr (map out_Location_ID assignment_df)
  end.

(** [main] after the two tables are read; its result is the summary it
    prints: the SKUs, the assigned and the unassigned ones. *)
Definition main (sku_df : SkuFrame) (loc_df : list LocRow) : M (nat * nat * nat) :=
  '(sku_df, loc_df) ← lift (normalise_cols sku_df loc_df);
  let loc_df := prepare_locations loc_df in
  '(assignment_df, _) ← lift (assign_skus sku_df loc_df);
  to_csv assignment_df;;
  ids ← lift (location_id_column assignment_df);
  mret (length (sku_rows sku_df),
        length (filter (fun c => isna c = false) ids),
        length (filter (fun c => isna c = true) ids)).

End Model.

Arguments SkuRow : clear implicits.
Arguments SkuFrame : clear implicits.
Arguments LocRow : clear implicits.
Arguments RankedLoc : clear implicits.
Arguments Assignment : clear implicits.
Arguments World : clear implicits.
Arguments M : clear implicits.

(** ** Example tables *)

Module Demo.

Definition sku (id : string) (score : val Z) (size handling family : string)
  : SkuRow Z :=
  {| SKU_ID := Str id;
     AI_Priority_Score_100 := score;
     AI_Priority_Score := VNaN;
     SKU_Size_Class := Some (Str size);
     Handling_Type := Some (Str handling);
     Family_or_Category := Some (Str family) |}.

Definition location (id zone aisle : string) (rack level : Z) (allowed special : cell)
  : LocRow Z Z :=
  {| Location_ID := Str id;
     Zone := Str zone;
     Aisle := Str aisle;
     Rack := Val rack;
     Level := Val level;
     Allowed_Size_Class := Some allowed;
     Special_Constraint := Some special |}.

Definition frame (rows : list (SkuRow Z)) : SkuFrame Z :=
  {| sku_columns :=
       ["SKU_ID"; "AI_Priority_Score_100"; "SKU_Size_Class"; "Handling_Type";
        "Family_or_Category"];
     sku_rows := rows |}.

Definition s1 := sku "S1" (Val 90) "Medium" "standard" "Tools".
Definition s2 := sku "S2" (Val 80) "Medium" "standard" "Tools".
Definition s3 := sku "S3" (Val 70) "Medium" "standard" "Tools".
Definition s4 := sku "S4" (Val 60) "Medium" "standard" "Tools".
Definition sku_a := sku "A" (Val 50) "Large" "standard" "Tools".
Definition sku_c := sku "C" (Val 45) "Small" "standard" "Tools".
Definition sku_b := sku "B" (Val 40) "Medium" "standard" "Tools".
Definition sku_n := sku "N" VNaN "Small" "fragile" "Glass".

Definition skus : SkuFrame Z := frame [sku_b; s3; sku_n; sku_a; sku_c; s1; s4; s2].

Definition l1 := location "L1" "Golden" "Aisle-07" 1 1 (Str "M+L") NaN.
Definition l2 := location "L2" "Overflow" "Aisle-2" 1 1 (Str "s") (Str "Fragile-only").
Definition l3 := location "L3" "Overflow" "Aisle-10" 3 1 (Str "S") NaN.

Definition locations : list (LocRow Z Z) := [l3; l2; l1].

Definition ranked : list (RankedLoc Z Z) := prepare_locations locations.

(** The location at the head of the ranked frame when four SKUs are in. *)
Definition slot : RankedLoc Z Z := set_used 4 (add_columns l1).

(** A state of the frame in which [L1] is full, and a fourth location. *)
Definition l4 := location "L4" "Overflow" "Aisle-11" 1 2 NaN NaN.
Definition full_l1 : RankedLoc Z Z := set_used 5 (add_columns l1).

(** Four SKUs with the scores 0, 0, 1 and 1. *)
Definition t0 := sku "T0" (Val 0) "Small" "standard" "Tools".
Definition t1 := sku "T1" (Val 0) "Small" "standard" "Tools".
Definition t2 := sku "T2" (Val 1) "Small" "standard" "Tools".
Definition t3 := sku "T3" (Val 1) "Small" "standard" "Tools".
Definition tied : SkuFrame Z := frame [t0; t1; t2; t3].

(** A location whose allowed size is an empty text, and one for Large only;
    a Small SKU, and one whose size is written with blanks around it. *)
Definition empty_allowed := location "E1" "Standard" "Aisle-1" 1 1 (Str "") NaN.
Definition large_only := location "E2" "Standard" "Aisle-1" 2 1 (Str "L") NaN.
Definition small := sku "X1" (Val 10) "Small" "standard" "Tools".
Definition padded_small := sku "X2" (Val 10) " Small " "standard" "Tools".

End Demo.

(** ** Further notions and tables *)

(** The slots in use over the whole frame. *)
Definition total_used {LevelT RackT} (loc_df : list (RankedLoc LevelT RackT)) : Z :=
  foldr Z.add 0 (Used_Slots <$> loc_df).

(** What a run may do to a location: nothing to its row and computed
    columns; its counter may grow, up to the capacity, and does not move
    when it is at or over the capacity. *)
Definition only_counted {LevelT RackT} (a b : RankedLoc LevelT RackT) : Prop :=
  row b = row a /\ AisleNum b = AisleNum a /\ ZoneRank b = ZoneRank a
  /\ Used_Slots a <= Used_Slots b
  /\ (Used_Slots b <= MAX_SKUS_PER_LOCATION \/ Used_Slots b = Used_Slots a).

Module Demo2.
Import Demo.

(** A frame that has only the fallback score column. *)
Definition fallback_row (id : string) (score : val Z) : SkuRow Z :=
  {| SKU_ID := Str id;
     AI_Priority_Score_100 := VNaN;
     AI_Priority_Score := score;
     SKU_Size_Class := Some (Str "Medium");
     Handling_Type := Some (Str "standard");
     Family_or_Category := Some (Str "Tools") |}.

Definition fallback_frame : SkuFrame Z :=
  {| sku_columns := ["SKU_ID"; "AI_Priority_Score"];
     sku_rows := [fallback_row "F1" (Val 10); fallback_row "F2" (Val 30);
                  fallback_row "F3" VNaN] |}.

(** The SKU table with its header and no row. *)
Definition no_skus : SkuFrame Z := frame [].

(** A location without an allowed size and without the constraint column. *)
Definition open_location : RankedLoc Z Z :=
  add_columns
    {| Location_ID := Str "L9"; Zone := Str "Standard"; Aisle := Int 4;
       Rack := Val 1; Level := Val 1;
       Allowed_Size_Class := Some NaN; Special_Constraint := None |}.

(** A fragile-only location, and a fragile twin of [S1]. *)
Definition fragile_only : RankedLoc Z Z :=
  add_columns (location "L8" "Golden" "A1" 1 1 NaN (Str "Fragile-only")).
Definition s1_fragile := sku "S1" (Val 90) "Medium" " Fragile " "Tools".

End Demo2.

(** * Properties *)

(** ** Text *)

Module TextFacts.
Import Text.

Lemma isspace_lower_char c : isspace (lower_char c) = isspace c.
Proof. destruct c as [[] [] [] [] [] [] [] []]; reflexivity. Qed.

Lemma lower_upper_char c : lower_char (upper_char c) = lower_char c.
Proof. destruct c as [[] [] [] [] [] [] [] []]; reflexivity. Qed.

Lemma upper_lower_char c : upper_char (lower_char c) = upper_char c.
Proof. destruct c as [[] [] [] [] [] [] [] []]; reflexivity. Qed.

Lemma lower_upper s : lower (upper s) = lower s.
Proof.
  induction s as [|c s IH]; simpl; [reflexivity|].
  unfold lower, upper in *. simpl. by rewrite lower_upper_char, IH.
Qed.

Lemma upper_lower s : upper (lower s) = upper s.
Proof.
  induction s as [|c s IH]; simpl; [reflexivity|].
  unfold lower, upper in *. simpl. by rewrite upper_lower_char, IH.
Qed.

(** Comparing upper-cased texts is comparing them without regard to case. *)
Lemma eqb_upper_lower a b :
  String.eqb (upper a) (upper b) = String.eqb (lower a) (lower b).
Proof.
  destruct (String.eqb_spec (upper a) (upper b)) as [E|E];
    destruct (String.eqb_spec (lower a) (lower b)) as [F|F]; try reflexivity.
  - exfalso. apply F. by rewrite <- (lower_upper a), E, lower_upper.
  - exfalso. apply E. by rewrite <- (upper_lower a), F, upper_lower.
Qed.

Lemma lower_lstrip s : lower (lstrip s) = lstrip (lower s).
Proof.
  induction s as [|c s IH]; [reflexivity|].
  change (lower (String c s)) with (String (lower_char c) (lower s)).
  simpl. rewrite isspace_lower_char. destruct (isspace c); [exact IH|reflexivity].
Qed.

Lemma lower_rstrip s : lower (rstrip s) = rstrip (lower s).
Proof.
  induction s as [|c s IH]; [reflexivity|].
  change (lower (String c s)) with (String (lower_char c) (lower s)).
  simpl. rewrite <- IH, isspace_lower_char.
  destruct (rstrip s); simpl; [destruct (isspace c)|]; reflexivity.
Qed.

Lemma lower_strip s : lower (strip s) = strip (lower s).
Proof. unfold strip. by rewrite lower_rstrip, lower_lstrip. Qed.

(** A keyword that starts with no blank is found in a text as in the text
    without its leading blanks. *)
Lemma contains_lstrip a n s :
  isspace a = false -> contains (String a n) (lstrip s) = contains (String a n) s.
Proof.
  intros Ha. induction s as [|c s IH]; [reflexivity|].
  cbn [lstrip]. destruct (isspace c) eqn:Hc; [|reflexivity].
  rewrite IH. cbn [contains String.prefix].
  destruct (ascii_dec a c) as [->|]; [congruence|reflexivity].
Qed.

Lemma rstrip_tail a n :
  rstrip (String a n) = String a n ->
  rstrip n = n /\ (n = EmptyString -> isspace a = false).
Proof.
  cbn [rstrip]. destruct (rstrip n) as [|d r] eqn:E.
  - destruct (isspace a); intros H; [discriminate H|].
    injection H as <-. auto.
  - intros H. injection H as <-. split; [reflexivity|discriminate].
Qed.

Lemma prefix_cons a n c t :
  String.prefix (String a n) (String c t)
  = if ascii_dec a c then String.prefix n t else false.
Proof. reflexivity. Qed.

Lemma prefix_rstrip n s :
  rstrip n = n -> String.prefix n (rstrip s) = String.prefix n s.
Proof.
  revert n. induction s as [|c s IH]; intros n Hn; [reflexivity|].
  destruct n as [|a n]; [by destruct (rstrip (String c s))|].
  destruct (rstrip_tail _ _ Hn) as [Hn' Ha].
  specialize (IH n Hn'). cbn [rstrip].
  destruct (rstrip s) as [|d r] eqn:E.
  - rewrite (prefix_cons a n c s), <- IH. destruct (isspace c) eqn:Hc.
    + destruct (ascii_dec a c) as [->|]; [|reflexivity].
      destruct n; [|reflexivity].
      rewrite Ha in Hc by reflexivity. discriminate.
    + by rewrite prefix_cons.
  - by rewrite !prefix_cons, IH.
Qed.

(** A keyword that ends with no blank is found in a text as in the text
    without its trailing blanks. *)
Lemma contains_rstrip n s :
  rstrip n = n -> n <> EmptyString -> contains n (rstrip s) = contains n s.
Proof.
  intros Hn Hne. induction s as [|c s IH]; [reflexivity|].
  assert (Hempty : contains n EmptyString = false).
  { destruct n; [done|reflexivity]. }
  cbn [contains]. rewrite <- (prefix_rstrip n (String c s) Hn), <- IH.
  cbn [rstrip]. destruct (rstrip s) as [|d r] eqn:E.
  - destruct (isspace c); [|reflexivity].
    rewrite Hempty. destruct n; [done|reflexivity].
  - reflexivity.
Qed.

Lemma contains_strip a n s :
  isspace a = false -> rstrip (String a n) = String a n ->
  contains (String a n) (strip s) = contains (String a n) s.
Proof.
  intros Ha Hn. unfold strip.
  rewrite contains_rstrip by done. by apply contains_lstrip.
Qed.

End TextFacts.

(** ** The compatibility checker *)

Section CheckerFacts.

Context {LevelT RackT ScoreT : Type}.
Implicit Types (sku_row : SkuRow ScoreT) (loc_row : RankedLoc LevelT RackT).

Lemma size_map_mapped_code k :
  size_map k = Reference.code_text <$> Reference.mapped_code k.
Proof.
  unfold size_map, Reference.mapped_code.
  repeat (destruct (String.eqb k _); [reflexivity|]). reflexivity.
Qed.

(** The size rule of the source is the size rule as amended. *)
Lemma size_fits_reference sku_row loc_row :
  size_fits (get (SKU_Size_Class sku_row) PyNone)
            (get (Allowed_Size_Class (row loc_row)) PyNone)
  = rule_size_fit sku_row loc_row.
Proof.
  unfold size_fits, rule_size_fit.
  assert (Hsize :
    size_map (Text.strip (str (get (SKU_Size_Class sku_row) PyNone)))
    = Reference.code_text <$>
        Reference.mapped_code
          (Text.strip (Reference.field_text (SKU_Size_Class sku_row)))).
  { rewrite size_map_mapped_code.
    destruct (SKU_Size_Class sku_row) as [[]|]; reflexivity. }
  rewrite Hsize.
  destruct (Reference.mapped_code _) as [code|]; cbn [fmap option_fmap option_map].
  2: { by destruct (isna _). }
  destruct (Allowed_Size_Class (row loc_row)) as [[| |z|a]|];
    cbn [get isna Reference.field_absent Reference.field_text str]; try reflexivity.
  - unfold Reference.eq_ci.
    rewrite <- !TextFacts.eqb_upper_lower.
    destruct code; cbn [Reference.code_text];
      change (Text.upper "S") with "S"; change (Text.upper "M") with "M";
      change (Text.upper "L") with "L"; change (Text.upper "M+L") with "M+L";
      cbn [String.eqb Ascii.eqb Bool.eqb andb orb];
      repeat match goal with
             | |- context [String.eqb ?a ?b] => destruct (String.eqb a b)
             end; reflexivity.
  - unfold Reference.eq_ci.
    rewrite <- !TextFacts.eqb_upper_lower.
    destruct code; cbn [Reference.code_text];
      change (Text.upper "S") with "S"; change (Text.upper "M") with "M";
      change (Text.upper "L") with "L"; change (Text.upper "M+L") with "M+L";
      cbn [String.eqb Ascii.eqb Bool.eqb andb orb];
      repeat match goal with
             | |- context [String.eqb ?a ?b] => destruct (String.eqb a b)
             end; reflexivity.
Qed.

(** A keyword is found in the normalised text of a field as the specification
    looks for it: without regard to case, a missing field counting as the
    empty text. *)
Lemma keyword_found a n (f : option cell) :
  let k := String a n in
  Text.isspace a = false -> Text.rstrip k = k -> Text.lower k = k ->
  Text.contains k "none" = false -> Text.contains k "nan" = false ->
  Text.contains k (Text.lower (Text.strip (str (get f (Str "")))))
  = Reference.contains_ci k (Reference.field_text f).
Proof.
  intros k Ha Hk Hlow Hnone Hnan. unfold Reference.contains_ci. rewrite Hlow.
  destruct f as [[| |z|s]|];
    cbn [get str Reference.field_text isna];
    try (rewrite TextFacts.lower_strip; by apply TextFacts.contains_strip).
  - exact Hnone.
  - exact Hnan.
Qed.

Lemma handling_is_fragile (f : option cell) :
  String.eqb (Text.lower (Text.strip (str (get f (Str ""))))) "fragile"
  = Reference.eq_ci (Text.strip (Reference.field_text f)) "fragile".
Proof. destruct f as [[| |z|s]|]; reflexivity. Qed.

(** The rules word for word and the rules as amended part only where the
    SKU size has blanks around it or the allowed size is an empty or a blank
    text. *)
Lemma claimed_rules_agree_elsewhere sku_row loc_row :
  Text.strip (Reference.field_text (SKU_Size_Class sku_row))
  = Reference.field_text (SKU_Size_Class sku_row) ->
  Reference.field_empty (Allowed_Size_Class (row loc_row))
  = Reference.field_absent (Allowed_Size_Class (row loc_row)) ->
  can_store_claimed sku_row loc_row = can_store_reference sku_row loc_row.
Proof.
  intros Hsize Hallowed.
  unfold can_store_claimed, can_store_reference, rule_size_fit_claimed, rule_size_fit.
  by rewrite Hsize, Hallowed.
Qed.

(** C4, as the code has it.  For every SKU and every location, [can_store]
    is the four rules taken in order: the size rule (the SKU size, trimmed,
    is Small, Medium or Large and mapped to S, M, L; an unrecognized size is
    compatible, and so is an allowed size that is absent, that is a missing
    key, [None] or the [nan] of an empty field of the file; otherwise the
    trimmed allowed code equals the mapped code without regard to case, or
    is M+L for a code M or L, so that an allowed size that is an empty or a
    blank text fits no SKU of a known size), the fragile-only rule, the
    chilled and hazard rule, and compatible otherwise. *)
Theorem can_store_four_rules sku_row loc_row :
  can_store sku_row loc_row = can_store_reference sku_row loc_row.
Proof.
  unfold can_store, can_store_reference.
  rewrite size_fits_reference.
  unfold rule_fragile_only_rejects, rule_chilled_rejects.
  rewrite handling_is_fragile.
  rewrite !(keyword_found "f" "ragile-only") by reflexivity.
  rewrite !(keyword_found "c" "hilled") by reflexivity.
  rewrite !(keyword_found "h" "azard") by reflexivity.
  reflexivity.
Qed.

End CheckerFacts.

(** ** Sorting *)

Section SortFacts.

Context {A : Type} (le : A -> A -> bool).

Lemma insert_sorted_perm x l : insert_sorted le x l ≡ₚ x :: l.
Proof.
  induction l as [|y l IH]; simpl; [done|].
  destruct (le x y); [done|]. rewrite IH. apply Permutation_swap.
Qed.

Lemma stable_sort_perm l : stable_sort le l ≡ₚ l.
Proof.
  induction l as [|x l IH]; simpl; [done|].
  by rewrite insert_sorted_perm, IH.
Qed.

(** Rows that tie under [le] are never moved past one another. *)
Lemma filter_insert_sorted (P : A -> bool) x l :
  (forall y, P x = true -> P y = true -> le x y = true) ->
  filter (fun a => P a = true) (insert_sorted le x l)
  = filter (fun a => P a = true) (x :: l).
Proof.
  intros HP. induction l as [|y l IH]; simpl; [done|].
  destruct (le x y) eqn:Hxy; [done|].
  rewrite (filter_cons _ y), IH, !filter_cons.
  destruct (decide (P x = true)) as [Hx|Hx];
    destruct (decide (P y = true)) as [Hy|Hy]; try done.
  rewrite HP in Hxy by done. discriminate.
Qed.

Lemma stable_sort_stable (P : A -> bool) l :
  (forall x y, P x = true -> P y = true -> le x y = true) ->
  filter (fun a => P a = true) (stable_sort le l) = filter (fun a => P a = true) l.
Proof.
  intros HP. induction l as [|x l IH]; simpl; [done|].
  rewrite filter_insert_sorted by auto. by rewrite !filter_cons, IH.
Qed.

Hypothesis le_total : forall x y, le x y = true \/ le y x = true.
Hypothesis le_trans : forall x y z, le x y = true -> le y z = true -> le x z = true.

Lemma insert_sorted_sorted x l :
  StronglySorted (fun a b => le a b = true) l ->
  StronglySorted (fun a b => le a b = true) (insert_sorted le x l).
Proof.
  induction 1 as [|y l Hs IH Hy]; simpl; [repeat constructor|].
  destruct (le x y) eqn:Hxy.
  - constructor; [by constructor|].
    constructor; [done|]. eapply Forall_impl; [exact Hy|]. eauto.
  - constructor; [done|].
    rewrite insert_sorted_perm. constructor; [|done].
    destruct (le_total x y); congruence.
Qed.

Lemma stable_sort_sorted l :
  StronglySorted (fun a b => le a b = true) (stable_sort le l).
Proof.
  induction l; simpl; [constructor|]. by apply insert_sorted_sorted.
Qed.

End SortFacts.

Section IlocFacts.

Context {A : Type}.
Implicit Types (l : list A) (idxs : list nat).

Lemma iloc_app idxs1 idxs2 l : iloc (idxs1 ++ idxs2) l = iloc idxs1 l ++ iloc idxs2 l.
Proof. unfold iloc. apply omap_app. Qed.

Lemma iloc_seq l1 l2 : iloc (seq (length l1) (length l2)) (l1 ++ l2) = l2.
Proof.
  revert l1. induction l2 as [|x l2 IH]; intros l1; [done|].
  cbn [length seq]. unfold iloc in *. cbn [omap list_omap].
  rewrite list_lookup_middle by done.
  f_equal. specialize (IH (l1 ++ [x])).
  rewrite length_app, <- (assoc_L (++)) in IH. cbn [length app] in IH.
  by rewrite Nat.add_1_r in IH.
Qed.

Lemma iloc_all l : iloc (seq 0 (length l)) l = l.
Proof. exact (iloc_seq [] l). Qed.

Lemma iloc_perm idxs l : idxs ≡ₚ seq 0 (length l) -> iloc idxs l ≡ₚ l.
Proof.
  intros H. rewrite <- (iloc_all l) at 2. unfold iloc. by rewrite H.
Qed.

Lemma iloc_fmap {B} (f : A -> B) idxs l : f <$> iloc idxs l = iloc idxs (f <$> l).
Proof.
  unfold iloc. induction idxs as [|i idxs IH]; [done|].
  cbn [omap list_omap]. rewrite list_lookup_fmap.
  destruct (l !! i); cbn; by rewrite IH.
Qed.

End IlocFacts.

Lemma StronglySorted_reverse {A} (R : relation A) l :
  StronglySorted R l -> StronglySorted (flip R) (reverse l).
Proof.
  induction 1 as [|x l Hs IH Hx]; [constructor|].
  rewrite reverse_cons. apply StronglySorted_app; split_and!.
  - intros a b Ha Hb. apply list_elem_of_singleton in Hb as ->.
    rewrite elem_of_reverse in Ha. unfold flip.
    rewrite Forall_forall in Hx. by apply Hx.
  - done.
  - repeat constructor.
Qed.

Lemma StronglySorted_fmap_inv {A B} (f : A -> B) (R : relation B) l :
  StronglySorted R (f <$> l) -> StronglySorted (fun a b => R (f a) (f b)) l.
Proof.
  induction l as [|x l IH]; [constructor|].
  rewrite fmap_cons, StronglySorted_cons, Forall_fmap. intros [Hx Hs].
  constructor; auto.
Qed.

Lemma filter_none {A} (P : A -> Prop) `{!forall x, Decision (P x)} l :
  Forall (fun x => ~ P x) l -> filter P l = [].
Proof.
  induction 1 as [|x l Hx _ IH]; [done|]. by rewrite filter_cons, decide_False.
Qed.

Lemma filter_all {A} (P : A -> Prop) `{!forall x, Decision (P x)} l :
  Forall P l -> filter P l = l.
Proof.
  induction 1 as [|x l Hx _ IH]; [done|]. by rewrite filter_cons, decide_True, IH.
Qed.

Lemma filter_bool_split {A} (f : A -> bool) l :
  filter (fun r => f r = false) l ++ filter (fun r => f r = true) l ≡ₚ l.
Proof.
  induction l as [|x l IH]; [done|].
  rewrite !filter_cons. destruct (f x) eqn:E.
  - rewrite decide_False, decide_True by done.
    by rewrite <- Permutation_middle, IH.
  - rewrite decide_True, decide_False by done. cbn. by rewrite IH.
Qed.

(** *** The two argsorts fulfil the contract *)

Section ArgsortFacts.

Context {K : Type} `{!Comparable K}.

Lemma index_keys_snd i (ks : list K) : (index_keys i ks).*2 = seq i (length ks).
Proof.
  revert i. induction ks as [|k ks IH]; intros i; [done|].
  cbn. by rewrite IH.
Qed.

Lemma index_keys_lookup (pre ks : list K) :
  Forall (fun p => (pre ++ ks) !! p.2 = Some p.1) (index_keys (length pre) ks).
Proof.
  revert pre. induction ks as [|k ks IH]; intros pre; [constructor|].
  cbn [index_keys]. constructor.
  - cbn. by rewrite list_lookup_middle.
  - specialize (IH (pre ++ [k])).
    rewrite length_app, <- (assoc_L (++)) in IH. cbn [length app] in IH.
    by rewrite Nat.add_1_r in IH.
Qed.

Lemma iloc_pairs (ks : list K) (l : list (K * nat)) :
  Forall (fun p => ks !! p.2 = Some p.1) l -> iloc l.*2 ks = l.*1.
Proof.
  unfold iloc. induction 1 as [|p l Hp _ IH]; [done|].
  cbn [fmap list_fmap omap list_omap]. rewrite Hp. cbn. f_equal. exact IH.
Qed.

Lemma argsort_stable_perm (ks : list K) : argsort_stable ks ≡ₚ seq 0 (length ks).
Proof.
  unfold argsort_stable. by rewrite stable_sort_perm, index_keys_snd.
Qed.

Lemma argsort_stable_sorted (ks : list K) :
  StronglySorted (fun a b => cmp_le a b = true) (iloc (argsort_stable ks) ks).
Proof.
  unfold argsort_stable. rewrite iloc_pairs.
  - eapply (StronglySorted_fmap fst); [|apply stable_sort_sorted].
    + intros x y H. exact H.
    + intros x y. apply cmp_le_total.
    + intros x y z. apply cmp_le_trans.
  - rewrite stable_sort_perm. exact (index_keys_lookup [] ks).
Qed.

Lemma argsort_reversing_perm (ks : list K) :
  argsort_reversing ks ≡ₚ seq 0 (length ks).
Proof.
  unfold argsort_reversing.
  by rewrite reverse_Permutation, stable_sort_perm, index_keys_snd.
Qed.

Lemma argsort_reversing_sorted (ks : list K) :
  StronglySorted (fun a b => cmp_le a b = true) (iloc (argsort_reversing ks) ks).
Proof.
  unfold argsort_reversing. rewrite iloc_pairs.
  - eapply (StronglySorted_fmap fst); [|apply StronglySorted_reverse, stable_sort_sorted].
    + intros x y H. exact H.
    + intros x y. apply cmp_le_total.
    + intros x y z H1 H2. exact (cmp_le_trans _ _ _ H2 H1).
  - rewrite reverse_Permutation, stable_sort_perm. exact (index_keys_lookup [] ks).
Qed.

(** An argsort that keeps ties in their order. *)
Definition tie_keeping_argsort : Argsort K :=
  {| argsort := argsort_stable;
     argsort_perm := argsort_stable_perm;
     argsort_sorted := argsort_stable_sorted |}.

(** An argsort that reverses ties. *)
Definition tie_reversing_argsort : Argsort K :=
  {| argsort := argsort_reversing;
     argsort_perm := argsort_reversing_perm;
     argsort_sorted := argsort_reversing_sorted |}.

End ArgsortFacts.

(** *** [sort_values] on one column, descending *)

Section SortValuesFacts.

Context {A K : Type} `{Argsort K} (key : A -> val K).

Lemma with_key_rows (rows : list A) :
  (omap (with_key key) rows).*2 = filter (fun r => val_isna (key r) = false) rows.
Proof.
  induction rows as [|r rows IH]; [done|].
  cbn [omap list_omap]. rewrite filter_cons. unfold with_key at 1.
  destruct (key r); cbn [val_isna].
  - by rewrite decide_False.
  - by rewrite decide_False.
  - rewrite decide_True by done. cbn. by rewrite IH.
Qed.

Lemma with_key_keys (rows : list A) :
  Forall (fun p => key p.2 = Val p.1) (omap (with_key key) rows).
Proof.
  induction rows as [|r rows IH]; [constructor|].
  cbn [omap list_omap]. unfold with_key at 1.
  destruct (key r) eqn:E; try done. by constructor.
Qed.

(** The sorted frame: the rows with a value, in descending order of it, and
    then the rows without one, in their order. *)
Lemma sort_values_desc_shape (rows : list A) :
  exists scored : list (K * A),
    sort_values_desc key rows
    = scored.*2 ++ filter (fun r => val_isna (key r) = true) rows
    /\ scored ≡ₚ omap (with_key key) rows
    /\ StronglySorted (fun a b => cmp_le b.1 a.1 = true) scored.
Proof.
  set (non_nans := reverse (omap (with_key key) rows)).
  exists (reverse (iloc (argsort non_nans.*1) non_nans)). split_and!.
  - reflexivity.
  - rewrite reverse_Permutation, iloc_perm.
    + apply reverse_Permutation.
    + rewrite <- (length_fmap fst). apply argsort_perm.
  - apply (StronglySorted_reverse (fun a b => cmp_le a.1 b.1 = true)).
    apply (StronglySorted_fmap_inv fst (fun a b => cmp_le a b = true)).
    rewrite iloc_fmap. apply argsort_sorted.
Qed.

Lemma sort_values_desc_perm (rows : list A) : sort_values_desc key rows ≡ₚ rows.
Proof.
  destruct (sort_values_desc_shape rows) as (scored & -> & Hp & _).
  rewrite Hp, with_key_rows. apply filter_bool_split.
Qed.

Lemma sort_values_desc_sorted (rows : list A) :
  StronglySorted (fun a b => desc_na_last_le (key a) (key b) = true)
    (sort_values_desc key rows).
Proof.
  destruct (sort_values_desc_shape rows) as (scored & -> & Hp & Hs).
  assert (Hk : Forall (fun p => key p.2 = Val p.1) scored).
  { rewrite Hp. apply with_key_keys. }
  apply StronglySorted_app; split_and!.
  - intros a b Ha Hb.
    apply list_elem_of_fmap in Ha as ([k r] & -> & Ha).
    rewrite Forall_forall in Hk. rewrite (Hk _ Ha). cbn.
    apply list_elem_of_filter in Hb as [Hb _].
    by destruct (key b).
  - clear Hp. induction Hs as [|[k r] scored Hs IH Hx]; [constructor|].
    apply Forall_cons in Hk as [Hr Hk]. cbn in Hr.
    rewrite fmap_cons. constructor; [by apply IH|].
    rewrite Forall_fmap. rewrite Forall_forall in Hx, Hk |- *.
    intros [k' r'] Hin. pose proof (Hk _ Hin) as Hr'. cbn in Hr' |- *.
    rewrite Hr, Hr'. exact (Hx _ Hin).
  - clear. induction rows as [|r rows IH]; [constructor|].
    rewrite filter_cons. destruct (decide (val_isna (key r) = true)) as [Hr|]; [|exact IH].
    constructor; [exact IH|].
    apply Forall_forall. intros b Hb. apply list_elem_of_filter in Hb as [Hb _].
    by destruct (key r), (key b).
Qed.

(** The rows with a value come first, the others after them. *)
Lemma sort_values_desc_split (rows : list A) :
  exists scored_rows,
    sort_values_desc key rows
    = scored_rows ++ filter (fun r => val_isna (key r) = true) rows
    /\ Forall (fun r => val_isna (key r) = false) scored_rows.
Proof.
  destruct (sort_values_desc_shape rows) as (scored & -> & Hp & _).
  exists scored.*2. split; [done|].
  rewrite Hp, with_key_rows. apply Forall_forall.
  by intros r [? _]%list_elem_of_filter.
Qed.

Lemma sort_values_desc_nans (rows : list A) :
  filter (fun r => val_isna (key r) = true) (sort_values_desc key rows)
  = filter (fun r => val_isna (key r) = true) rows.
Proof.
  destruct (sort_values_desc_split rows) as (scored_rows & -> & Hs).
  rewrite filter_app, filter_none, filter_all; [done| |].
  - apply Forall_forall. by intros r [? _]%list_elem_of_filter.
  - eapply Forall_impl; [exact Hs|]. cbn. intros r ->. done.
Qed.

End SortValuesFacts.

(** ** The assignment engine *)

Section EngineFacts.

Context {LevelT RackT ScoreT : Type}.
Implicit Types (sku_row : SkuRow ScoreT) (loc_row : RankedLoc LevelT RackT).
Implicit Types (sku_rows p q : list (SkuRow ScoreT)).
Implicit Types (loc_df : list (RankedLoc LevelT RackT)).
Implicit Types (columns : list string).

Lemma scan_cons sku_row loc_row loc_df i :
  scan sku_row (loc_row :: loc_df) i
  = if qualifies sku_row loc_row then Some (i, loc_row)
    else scan sku_row loc_df (S i).
Proof.
  cbn [scan]. unfold qualifies, has_room.
  rewrite Z.geb_leb, Z.ltb_antisym.
  destruct (MAX_SKUS_PER_LOCATION <=? Used_Slots loc_row); [reflexivity|].
  by destruct (can_store sku_row loc_row).
Qed.

Lemma scan_None sku_row loc_df i :
  scan sku_row loc_df i = None
  <-> Forall (fun loc_row => qualifies sku_row loc_row = false) loc_df.
Proof.
  revert i. induction loc_df as [|loc_row loc_df IH]; intros i.
  - split; [constructor|reflexivity].
  - rewrite scan_cons, Forall_cons.
    destruct (qualifies sku_row loc_row).
    + split; [discriminate|]. by intros [? _].
    + rewrite IH. tauto.
Qed.

Lemma scan_Some sku_row loc_df i j loc_row :
  scan sku_row loc_df i = Some (j, loc_row)
  <-> exists l1 l2,
        loc_df = l1 ++ loc_row :: l2 /\ j = (i + length l1)%nat
        /\ Forall (fun l => qualifies sku_row l = false) l1
        /\ qualifies sku_row loc_row = true.
Proof.
  revert i. induction loc_df as [|l loc_df IH]; intros i.
  - split; [discriminate|]. intros ([|??] & ? & ? & _); discriminate.
  - rewrite scan_cons. destruct (qualifies sku_row l) eqn:Hq.
    + split.
      * intros [= <- <-]. exists [], loc_df. rewrite Nat.add_0_r. auto.
      * intros ([|l' l1] & l2 & Heq & -> & Hl1 & _).
        -- injection Heq as -> _. by rewrite Nat.add_0_r.
        -- injection Heq as -> _. apply Forall_cons in Hl1 as [Hl' _]. congruence.
    + rewrite IH. split.
      * intros (l1 & l2 & -> & -> & Hl1 & Hloc).
        exists (l :: l1), l2. cbn [length]. split_and!; auto with lia.
      * intros ([|l' l1] & l2 & Heq & -> & Hl1 & Hloc).
        -- injection Heq as -> _. congruence.
        -- injection Heq as -> ->. apply Forall_cons in Hl1 as [_ Hl1].
           exists l1, l2. cbn [length]. split_and!; auto with lia.
Qed.

(** The engine takes the first location that qualifies, past any number of
    locations that are full or incompatible. *)
Lemma assign_one_placed columns sku_row l1 loc_row l2 :
  Forall (fun l => qualifies sku_row l = false) l1 ->
  qualifies sku_row loc_row = true ->
  assign_one columns sku_row (l1 ++ loc_row :: l2)
  = (placed columns sku_row loc_row,
     l1 ++ set_used (Used_Slots loc_row + 1) loc_row :: l2).
Proof.
  intros Hl1 Hq. unfold assign_one.
  assert (scan sku_row (l1 ++ loc_row :: l2) 0 = Some (length l1, loc_row)) as ->.
  { apply scan_Some. by exists l1, l2. }
  f_equal. rewrite <- (Nat.add_0_r (length l1)). by rewrite alter_app_r.
Qed.

Lemma assign_one_unplaced columns sku_row loc_df :
  Forall (fun l => qualifies sku_row l = false) loc_df ->
  assign_one columns sku_row loc_df = (unplaced columns sku_row, loc_df).
Proof.
  intros H. unfold assign_one. by rewrite (proj2 (scan_None sku_row loc_df 0) H).
Qed.

Lemma assign_one_cases columns sku_row loc_df :
  (Forall (fun l => qualifies sku_row l = false) loc_df
   /\ assign_one columns sku_row loc_df = (unplaced columns sku_row, loc_df))
  \/ (exists l1 loc_row l2,
        loc_df = l1 ++ loc_row :: l2
        /\ Forall (fun l => qualifies sku_row l = false) l1
        /\ qualifies sku_row loc_row = true
        /\ assign_one columns sku_row loc_df
           = (placed columns sku_row loc_row,
              l1 ++ set_used (Used_Slots loc_row + 1) loc_row :: l2)).
Proof.
  destruct (scan sku_row loc_df 0) as [[j loc_row]|] eqn:E.
  - right. apply scan_Some in E as (l1 & l2 & -> & _ & Hl1 & Hq).
    exists l1, loc_row, l2. split_and!; try done. by apply assign_one_placed.
  - left. apply scan_None in E. split; [done|]. by apply assign_one_unplaced.
Qed.

Lemma assign_loop_acc columns sku_rows loc_df acc :
  assign_loop columns sku_rows loc_df acc
  = (acc ++ (assign_loop columns sku_rows loc_df []).1,
     (assign_loop columns sku_rows loc_df []).2).
Proof.
  revert loc_df acc. induction sku_rows as [|sku_row rest IH]; intros loc_df acc.
  - cbn. by rewrite app_nil_r.
  - cbn [assign_loop]. destruct (assign_one columns sku_row loc_df) as [r loc_df'].
    rewrite (IH loc_df' (acc ++ [r])), (IH loc_df' ([] ++ [r])).
    cbn. by rewrite <- (assoc_L (++)).
Qed.

Lemma assign_loop_cons columns sku_row rest loc_df :
  assign_loop columns (sku_row :: rest) loc_df []
  = ((assign_one columns sku_row loc_df).1
       :: (assign_loop columns rest (assign_one columns sku_row loc_df).2 []).1,
     (assign_loop columns rest (assign_one columns sku_row loc_df).2 []).2).
Proof.
  cbn [assign_loop]. destruct (assign_one columns sku_row loc_df) as [r loc_df'].
  by rewrite assign_loop_acc.
Qed.

(** The state after a prefix of the SKUs is a state of the whole run. *)
Lemma assign_loop_app columns p q loc_df :
  assign_loop columns (p ++ q) loc_df []
  = ((assign_loop columns p loc_df []).1
       ++ (assign_loop columns q (assign_loop columns p loc_df []).2 []).1,
     (assign_loop columns q (assign_loop columns p loc_df []).2 []).2).
Proof.
  revert loc_df. induction p as [|sku_row p IH]; intros loc_df.
  - cbn. by destruct (assign_loop columns q loc_df []).
  - rewrite <- app_comm_cons, !assign_loop_cons, IH. reflexivity.
Qed.

Lemma assign_loop_length columns sku_rows loc_df :
  length (assign_loop columns sku_rows loc_df []).1 = length sku_rows.
Proof.
  revert loc_df. induction sku_rows as [|sku_row rest IH]; intros loc_df; [done|].
  rewrite assign_loop_cons. cbn. by rewrite IH.
Qed.

(** *** What a run leaves unchanged, and what it keeps bounded *)

(** Only the counters of a location frame ever change. *)
Lemma assign_one_rows columns sku_row loc_df :
  set_used 0 <$> (assign_one columns sku_row loc_df).2 = set_used 0 <$> loc_df.
Proof.
  destruct (assign_one_cases columns sku_row loc_df)
    as [[_ ->]|(l1 & loc_row & l2 & -> & _ & _ & ->)]; [done|].
  cbn [snd]. by rewrite !fmap_app, !fmap_cons.
Qed.

Lemma assign_loop_rows columns sku_rows loc_df :
  set_used 0 <$> (assign_loop columns sku_rows loc_df []).2 = set_used 0 <$> loc_df.
Proof.
  revert loc_df. induction sku_rows as [|sku_row rest IH]; intros loc_df; [done|].
  rewrite assign_loop_cons. cbn [snd]. by rewrite IH, assign_one_rows.
Qed.

Lemma can_store_set_used sku_row n loc_row :
  can_store sku_row (set_used n loc_row) = can_store sku_row loc_row.
Proof. reflexivity. Qed.

Lemma placed_set_used columns sku_row n loc_row :
  placed columns sku_row (set_used n loc_row) = placed columns sku_row loc_row.
Proof. reflexivity. Qed.

Lemma same_rows_elem_of loc_df loc_df' loc_row :
  set_used 0 <$> loc_df' = set_used 0 <$> loc_df ->
  loc_row ∈ loc_df' ->
  exists loc_row0, loc_row0 ∈ loc_df /\ set_used 0 loc_row0 = set_used 0 loc_row.
Proof.
  intros Heq Hin.
  assert (Hin' : set_used 0 loc_row ∈ set_used 0 <$> loc_df).
  { rewrite <- Heq. by apply list_elem_of_fmap_2. }
  apply list_elem_of_fmap in Hin' as (loc_row0 & E & Hin0). eauto.
Qed.

Lemma assign_one_bound columns sku_row loc_df :
  Forall (fun l => Used_Slots l <= MAX_SKUS_PER_LOCATION) loc_df ->
  Forall (fun l => Used_Slots l <= MAX_SKUS_PER_LOCATION)
    (assign_one columns sku_row loc_df).2.
Proof.
  intros Hb.
  destruct (assign_one_cases columns sku_row loc_df)
    as [[_ ->]|(l1 & loc_row & l2 & -> & _ & Hq & ->)]; [done|].
  cbn [snd]. rewrite Forall_app, Forall_cons in Hb |- *.
  destruct Hb as (? & _ & ?). split_and!; try done.
  unfold qualifies, has_room in Hq. apply andb_prop in Hq as [Hq _].
  apply Z.ltb_lt in Hq. cbn. lia.
Qed.

Lemma assign_loop_bound columns sku_rows loc_df :
  Forall (fun l => Used_Slots l <= MAX_SKUS_PER_LOCATION) loc_df ->
  Forall (fun l => Used_Slots l <= MAX_SKUS_PER_LOCATION)
    (assign_loop columns sku_rows loc_df []).2.
Proof.
  revert loc_df. induction sku_rows as [|sku_row rest IH]; intros loc_df Hb; [done|].
  rewrite assign_loop_cons. cbn [snd]. by apply IH, assign_one_bound.
Qed.

(** Every record of a run is the unplaced record of its SKU, or the placed
    record of its SKU at a location of the frame that can store it. *)
Lemma assign_loop_records columns sku_rows loc_df :
  Forall2
    (fun sku_row r =>
       r = unplaced columns sku_row
       \/ exists loc_row, loc_row ∈ loc_df
            /\ can_store sku_row loc_row = true
            /\ r = placed columns sku_row loc_row)
    sku_rows (assign_loop columns sku_rows loc_df []).1.
Proof.
  assert (Hgen : forall loc_df',
    set_used 0 <$> loc_df' = set_used 0 <$> loc_df ->
    Forall2
      (fun sku_row r =>
         r = unplaced columns sku_row
         \/ exists loc_row, loc_row ∈ loc_df
              /\ can_store sku_row loc_row = true
              /\ r = placed columns sku_row loc_row)
      sku_rows (assign_loop columns sku_rows loc_df' []).1); [|by apply Hgen].
  induction sku_rows as [|sku_row rest IH]; intros loc_df' Hrows; [constructor|].
  rewrite assign_loop_cons. cbn [fst]. constructor.
  - destruct (assign_one_cases columns sku_row loc_df')
      as [[_ ->]|(l1 & loc_row & l2 & Heq & _ & Hq & ->)]; [by left|right].
    destruct (same_rows_elem_of loc_df loc_df' loc_row Hrows)
      as (loc_row0 & Hin & E).
    { rewrite Heq, elem_of_app, elem_of_cons. auto. }
    exists loc_row0. split; [done|].
    apply andb_prop in Hq as [_ Hq]. cbn [fst].
    rewrite <- (can_store_set_used _ 0 loc_row0), E, can_store_set_used.
    rewrite <- (placed_set_used _ _ 0 loc_row0), E, placed_set_used. done.
  - apply IH. by rewrite assign_one_rows.
Qed.

Lemma lookup_middle_ne {A} (l1 l2 : list A) x y i :
  i <> length l1 -> (l1 ++ x :: l2) !! i = (l1 ++ y :: l2) !! i.
Proof.
  intros Hi. destruct (decide (i < length l1)%nat).
  - by rewrite !lookup_app_l.
  - rewrite !lookup_app_r by lia.
    destruct (i - length l1)%nat eqn:E; [lia|reflexivity].
Qed.

Lemma assigned_to_cons id (r : Assignment LevelT RackT ScoreT) out :
  assigned_to id (r :: out)
  = ((if decide (out_Location_ID r = id) then 1 else 0) + assigned_to id out)%nat.
Proof.
  unfold assigned_to. rewrite filter_cons. by destruct (decide _).
Qed.

(** A counter grows by the number of records that name its location. *)
Lemma assign_loop_counts columns sku_rows loc_df i loc_row loc_row' :
  NoDup ((fun l => Location_ID (row l)) <$> loc_df) ->
  loc_df !! i = Some loc_row ->
  isna (Location_ID (row loc_row)) = false ->
  (assign_loop columns sku_rows loc_df []).2 !! i = Some loc_row' ->
  Used_Slots loc_row'
  = Used_Slots loc_row
    + Z.of_nat (assigned_to (Location_ID (row loc_row))
                  (assign_loop columns sku_rows loc_df []).1).
Proof.
  revert loc_df loc_row.
  induction sku_rows as [|sku_row rest IH]; intros loc_df loc_row Hnd Hi Hid Hi'.
  { cbn in Hi' |- *. assert (loc_row' = loc_row) as -> by congruence. lia. }
  rewrite assign_loop_cons in Hi' |- *. cbn [fst snd] in Hi' |- *.
  rewrite assigned_to_cons.
  destruct (assign_one_cases columns sku_row loc_df)
    as [[_ E]|(l1 & loc_j & l2 & -> & _ & _ & E)];
    rewrite E in Hi' |- *; cbn [fst snd] in Hi' |- *.
  - rewrite decide_False.
    + by apply IH.
    + cbn. intros Heq. rewrite <- Heq in Hid. discriminate.
  - assert (Hnd' : NoDup ((fun l => Location_ID (row l)) <$>
                            l1 ++ set_used (Used_Slots loc_j + 1) loc_j :: l2)).
    { by rewrite fmap_app, fmap_cons in Hnd |- *. }
    destruct (decide (i = length l1)) as [->|Hne].
    + rewrite list_lookup_middle in Hi by done. injection Hi as <-.
      rewrite decide_True by done.
      rewrite (IH _ (set_used (Used_Slots loc_j + 1) loc_j) Hnd'); try done.
      * cbn. lia.
      * by rewrite list_lookup_middle.
    + rewrite decide_False.
      * apply IH; try done.
        by rewrite (lookup_middle_ne _ _ _ loc_j).
      * cbn. intros Heq. apply Hne.
        eapply (NoDup_lookup _ _ _ _ Hnd).
        -- rewrite list_lookup_fmap, Hi. reflexivity.
        -- rewrite list_lookup_fmap, list_lookup_middle by done. cbn. by rewrite Heq.
Qed.

End EngineFacts.

(** ** The location ranker *)

Section OrderFacts.

Context {A : Type} `{!Comparable A}.

Lemma cmp_le_refl (x : A) : cmp_le x x = true.
Proof. by destruct (cmp_le_total x x). Qed.

Lemma na_last_le_total (x y : val A) : na_last_le x y = true \/ na_last_le y x = true.
Proof. destruct x, y; cbn; auto using cmp_le_total. Qed.

Lemma na_last_le_trans (x y z : val A) :
  na_last_le x y = true -> na_last_le y z = true -> na_last_le x z = true.
Proof. destruct x, y, z; cbn; try done. apply cmp_le_trans. Qed.

Lemma na_last_le_refl (x : val A) : na_last_le x x = true.
Proof. by destruct (na_last_le_total x x). Qed.

End OrderFacts.

Section LexFacts.

Context {A : Type} (le : A -> A -> bool).
Hypothesis le_total : forall x y, le x y = true \/ le y x = true.
Hypothesis le_trans : forall x y z, le x y = true -> le y z = true -> le x z = true.

Lemma lex_le_total x y r r' :
  (r = true \/ r' = true) -> lex_le le x y r = true \/ lex_le le y x r' = true.
Proof.
  unfold lex_le. destruct (le_total x y), (le x y) eqn:?, (le y x) eqn:?; cbn; auto; congruence.
Qed.

Lemma lex_le_trans x y z r1 r2 r3 :
  (r1 = true -> r2 = true -> r3 = true) ->
  lex_le le x y r1 = true -> lex_le le y z r2 = true -> lex_le le x z r3 = true.
Proof.
  unfold lex_le. intros Hr.
  pose proof (le_trans x y z). pose proof (le_trans z y x).
  pose proof (le_trans y z x). pose proof (le_trans z x y).
  pose proof (le_trans x z y). pose proof (le_trans y x z).
  pose proof (le_total x y). pose proof (le_total y z). pose proof (le_total x z).
  destruct (le x y), (le y x), (le y z), (le z y), (le x z), (le z x);
    cbn; intuition congruence.
Qed.

(** A strictly smaller value in a column decides the comparison. *)
Lemma lex_le_lt x y r : le y x = false -> lex_le le x y r = true.
Proof. unfold lex_le. by intros ->. Qed.

Lemma lex_le_gt x y r : le x y = false -> lex_le le x y r = false.
Proof.
  unfold lex_le. intros Hxy. rewrite Hxy.
  destruct (le_total x y) as [E|E]; [congruence|by rewrite E].
Qed.

(** Equivalent values in a column leave the comparison to the next ones. *)
Lemma lex_le_tie x y r : le x y = true -> le y x = true -> lex_le le x y r = r.
Proof. unfold lex_le. by intros -> ->. Qed.

End LexFacts.

Module AisleFacts.
Import Text.

Lemma search_digits_None_cons c t :
  search_digits (String c t) = None <-> isdigit c = false /\ search_digits t = None.
Proof.
  cbn. destruct (isdigit c); [|tauto].
  split; [discriminate|]. by intros [? _].
Qed.

Lemma digit_run_app ds rest :
  digit_run ds = ds -> digit_run rest = EmptyString ->
  digit_run (ds +:+ rest) = ds.
Proof.
  induction ds as [|c ds IH]; [done|].
  change (String c ds +:+ rest) with (String c (ds +:+ rest)).
  cbn [digit_run]. destruct (isdigit c); [|done].
  intros H Hrest. injection H as H. by rewrite IH.
Qed.

(** The leftmost digit run of a text: after a prefix without digits, up to
    the first character that is not a digit. *)
Lemma search_digits_app pre ds rest :
  search_digits pre = None -> ds <> EmptyString ->
  digit_run ds = ds -> digit_run rest = EmptyString ->
  search_digits (pre +:+ ds +:+ rest) = Some ds.
Proof.
  intros Hpre Hne Hds Hrest. induction pre as [|p pre IH].
  - destruct ds as [|c ds]; [done|].
    assert (isdigit c = true) as Hc.
    { cbn in Hds. by destruct (isdigit c). }
    change (search_digits (String c (ds +:+ rest)) = Some (String c ds)).
    cbn [search_digits]. rewrite Hc. f_equal.
    by apply (digit_run_app (String c ds)).
  - apply search_digits_None_cons in Hpre as [Hp Hpre].
    change (search_digits (String p (pre +:+ ds +:+ rest)) = Some ds).
    cbn [search_digits]. rewrite Hp. by apply IH.
Qed.

End AisleFacts.

Section RankerFacts.

Context {LevelT RackT : Type} `{!Comparable LevelT, !Comparable RackT}.
Implicit Types (a b z : RankedLoc LevelT RackT) (loc_df : list (LocRow LevelT RackT)).

Lemma Z_leb_total (x y : Z) : (x <=? y) = true \/ (y <=? x) = true.
Proof. rewrite !Z.leb_le. lia. Qed.

Lemma Z_leb_trans (x y z : Z) : (x <=? y) = true -> (y <=? z) = true -> (x <=? z) = true.
Proof. rewrite !Z.leb_le. lia. Qed.

Lemma rank_le_total a b : rank_le a b = true \/ rank_le b a = true.
Proof.
  unfold rank_le.
  apply lex_le_total; [apply Z_leb_total|].
  apply lex_le_total; [apply na_last_le_total|].
  apply lex_le_total; [apply Z_leb_total|].
  apply na_last_le_total.
Qed.

Lemma rank_le_trans a b z : rank_le a b = true -> rank_le b z = true -> rank_le a z = true.
Proof.
  unfold rank_le.
  apply lex_le_trans; [apply Z_leb_total|apply Z_leb_trans|].
  apply lex_le_trans; [apply na_last_le_total|apply na_last_le_trans|].
  apply lex_le_trans; [apply Z_leb_total|apply Z_leb_trans|].
  apply na_last_le_trans.
Qed.

(** [rank_le] is the lexicographic order of the four keys, in the order zone
    rank, level, aisle number, rack. *)
Lemma rank_le_lexicographic a b :
  rank_le a b = true
  <-> ZoneRank a < ZoneRank b
      \/ (ZoneRank a = ZoneRank b
          /\ (na_last_le (Level (row b)) (Level (row a)) = false
              \/ (na_last_le (Level (row a)) (Level (row b)) = true
                  /\ na_last_le (Level (row b)) (Level (row a)) = true
                  /\ (AisleNum a < AisleNum b
                      \/ (AisleNum a = AisleNum b
                          /\ na_last_le (Rack (row a)) (Rack (row b)) = true))))).
Proof.
  unfold rank_le, lex_le.
  pose proof (na_last_le_total (Level (row a)) (Level (row b))).
  destruct (Z.leb_spec (ZoneRank a) (ZoneRank b)), (Z.leb_spec (ZoneRank b) (ZoneRank a)),
    (Z.leb_spec (AisleNum a) (AisleNum b)), (Z.leb_spec (AisleNum b) (AisleNum a)),
    (na_last_le (Level (row a)) (Level (row b))),
    (na_last_le (Level (row b)) (Level (row a)));
    cbn; intuition (try congruence; try lia).
Qed.

Lemma prepare_locations_perm loc_df : prepare_locations loc_df ≡ₚ add_columns <$> loc_df.
Proof. apply stable_sort_perm. Qed.

Lemma prepare_locations_zero loc_df :
  Forall (fun l => Used_Slots l = 0) (prepare_locations loc_df).
Proof.
  rewrite prepare_locations_perm, Forall_fmap. by apply Forall_true.
Qed.

(** C6. The location ranker returns the locations, each with its zone rank
    (Golden 0, Standard 1, Overflow 2, anything else 3) and its aisle number
    (the leftmost run of digits of the aisle's text, 0 when there is none),
    in ascending lexicographic order of zone rank, level, aisle number and
    rack; the locations whose keys tie are in the order of the input. *)
Theorem location_ranker_is_a_stable_sort loc_df :
  prepare_locations loc_df ≡ₚ add_columns <$> loc_df
  /\ StronglySorted (fun a b => rank_le a b = true) (prepare_locations loc_df)
  /\ (forall z,
        filter (fun a => same_rank a z = true) (prepare_locations loc_df)
        = filter (fun a => same_rank a z = true) (add_columns <$> loc_df))
  /\ (forall a b,
        rank_le a b = true
        <-> ZoneRank a < ZoneRank b
            \/ (ZoneRank a = ZoneRank b
                /\ (na_last_le (Level (row b)) (Level (row a)) = false
                    \/ (na_last_le (Level (row a)) (Level (row b)) = true
                        /\ na_last_le (Level (row b)) (Level (row a)) = true
                        /\ (AisleNum a < AisleNum b
                            \/ (AisleNum a = AisleNum b
                                /\ na_last_le (Rack (row a)) (Rack (row b)) = true))))))
  /\ (forall a b,
        ZoneRank a = ZoneRank b -> Level (row a) = Level (row b) ->
        AisleNum a = AisleNum b -> Rack (row a) = Rack (row b) ->
        same_rank a b = true)
  /\ (forall r : LocRow LevelT RackT,
        ZoneRank (add_columns r) = zone_rank (Zone r)
        /\ AisleNum (add_columns r) = aisle_num (Aisle r))
  /\ (zone_rank (Str "Golden") = 0 /\ zone_rank (Str "Standard") = 1
      /\ zone_rank (Str "Overflow") = 2
      /\ forall zone, zone <> Str "Golden" -> zone <> Str "Standard" ->
           zone <> Str "Overflow" -> zone_rank zone = 3)
  /\ (aisle_num PyNone = 0 /\ aisle_num NaN = 0
      /\ (forall text, Text.search_digits text = None -> aisle_num (Str text) = 0)
      /\ forall pre ds rest,
           Text.search_digits pre = None -> ds <> EmptyString ->
           Text.digit_run ds = ds -> Text.digit_run rest = EmptyString ->
           aisle_num (Str (pre +:+ ds +:+ rest)) = Text.int_of ds).
Proof.
  split_and!.
  - apply prepare_locations_perm.
  - apply stable_sort_sorted; [apply rank_le_total|apply rank_le_trans].
  - intros z. apply stable_sort_stable. intros x y Hx Hy.
    apply andb_prop in Hx as [Hx _]. apply andb_prop in Hy as [_ Hy].
    by apply (rank_le_trans x z y).
  - apply rank_le_lexicographic.
  - intros a b Hz Hl Ha Hr. unfold same_rank.
    assert (rank_le a b = true /\ rank_le b a = true) as [-> ->]; [|done].
    rewrite !rank_le_lexicographic, Hz, Hl, Ha, Hr, !na_last_le_refl.
    split; right; auto 10.
  - done.
  - reflexivity.
  - reflexivity.
  - reflexivity.
  - intros [| | |z] H1 H2 H3; try reflexivity. cbn.
    destruct (String.eqb_spec z "Golden") as [->|]; [done|].
    destruct (String.eqb_spec z "Standard") as [->|]; [done|].
    destruct (String.eqb_spec z "Overflow") as [->|]; done.
  - reflexivity.
  - reflexivity.
  - intros text H. unfold aisle_num. cbn. by rewrite H.
  - intros pre ds rest H1 H2 H3 H4. unfold aisle_num. cbn [isna str].
    by rewrite AisleFacts.search_digits_app.
Qed.

End RankerFacts.

(** ** A run of the engine *)

Lemma sort_values_desc_ext {A K} `{Argsort K} (key key' : A -> val K) rows :
  (forall r, key r = key' r) -> sort_values_desc key rows = sort_values_desc key' rows.
Proof.
  intros Hk. unfold sort_values_desc.
  assert (omap (with_key key) rows = omap (with_key key') rows) as ->.
  { apply list_omap_ext, Forall2_same_length_lookup_2; [done|].
    intros i x y ? ?. assert (x = y) as -> by congruence.
    unfold with_key. by rewrite Hk. }
  f_equal. apply list_filter_iff. intros r. by rewrite Hk.
Qed.

Section RunFacts.

Context {LevelT RackT ScoreT : Type}.
Context `{!Comparable LevelT, !Comparable RackT, !Comparable ScoreT, !Argsort ScoreT}.
Implicit Types (sku_row sku_a sku_b : SkuRow ScoreT).
Implicit Types (loc_row slot : RankedLoc LevelT RackT).
Implicit Types (sku_df : SkuFrame ScoreT) (sorted sku_rows : list (SkuRow ScoreT)).
Implicit Types (loc_df final : list (RankedLoc LevelT RackT)).
Implicit Types (raw : list (LocRow LevelT RackT)).
Implicit Types (out : list (Assignment LevelT RackT ScoreT)).

(** The engine sorts by the column that [priority_score] reads. *)
Lemma processing_order_inr sku_df sorted :
  processing_order sku_df = inr sorted ->
  sorted = sort_values_desc (priority_score (sku_columns sku_df)) (sku_rows sku_df).
Proof.
  unfold processing_order, has_column, priority_score.
  destruct (bool_decide ("AI_Priority_Score_100" ∈ sku_columns sku_df)).
  { by intros [= <-]. }
  destruct (bool_decide ("AI_Priority_Score" ∈ sku_columns sku_df)).
  { by intros [= <-]. }
  discriminate.
Qed.

Lemma processing_order_total sku_df :
  has_column "AI_Priority_Score_100" sku_df = true
  \/ has_column "AI_Priority_Score" sku_df = true ->
  exists sorted, processing_order sku_df = inr sorted.
Proof.
  unfold processing_order. intros [->| ->]; [eauto|].
  destruct (has_column "AI_Priority_Score_100" sku_df); eauto.
Qed.

Lemma processing_order_perm sku_df sorted :
  processing_order sku_df = inr sorted -> sorted ≡ₚ sku_rows sku_df.
Proof. intros ->%processing_order_inr. apply sort_values_desc_perm. Qed.

Lemma assign_skus_inr sku_df loc_df out final :
  assign_skus sku_df loc_df = inr (out, final)
  <-> exists sorted,
        processing_order sku_df = inr sorted
        /\ assign_loop (sku_columns sku_df) sorted loc_df [] = (out, final).
Proof.
  unfold assign_skus. destruct (processing_order sku_df) as [e|sorted].
  - split; [discriminate|]. by intros (? & ? & _).
  - split.
    + intros [= E]. eauto.
    + intros (? & [= <-] & ->). done.
Qed.

Lemma assign_skus_length sku_df loc_df out final :
  assign_skus sku_df loc_df = inr (out, final) ->
  length out = length (sku_rows sku_df).
Proof.
  intros (sorted & Hs & E)%assign_skus_inr.
  rewrite <- (Permutation_length (processing_order_perm _ _ Hs)).
  rewrite <- (assign_loop_length (sku_columns sku_df) sorted loc_df). by rewrite E.
Qed.

Lemma assign_skus_returns sku_df loc_df :
  has_column "AI_Priority_Score_100" sku_df = true
  \/ has_column "AI_Priority_Score" sku_df = true ->
  exists out final, assign_skus sku_df loc_df = inr (out, final).
Proof.
  intros (sorted & Hs)%processing_order_total.
  destruct (assign_loop (sku_columns sku_df) sorted loc_df []) as [out final] eqn:E.
  exists out, final. apply assign_skus_inr. eauto.
Qed.

Lemma processing_order_sorted sku_df sorted :
  processing_order sku_df = inr sorted ->
  StronglySorted
    (fun a b =>
       desc_na_last_le (priority_score (sku_columns sku_df) a)
                       (priority_score (sku_columns sku_df) b) = true)
    sorted.
Proof. intros ->%processing_order_inr. apply sort_values_desc_sorted. Qed.

Lemma assign_skus_ids sku_df loc_df out final :
  assign_skus sku_df loc_df = inr (out, final) ->
  out_SKU_ID <$> out ≡ₚ SKU_ID <$> sku_rows sku_df.
Proof.
  intros (sorted & Hs & E)%assign_skus_inr.
  rewrite <- (processing_order_perm _ _ Hs).
  pose proof (assign_loop_records (sku_columns sku_df) sorted loc_df) as Hrec.
  rewrite E in Hrec. cbn [fst] in Hrec.
  assert (out_SKU_ID <$> out = SKU_ID <$> sorted) as ->; [|done].
  clear Hs E. induction Hrec as [|sku_row r sorted' out' Hr _ IH]; [done|].
  rewrite !fmap_cons, IH. f_equal.
  by destruct Hr as [->|(loc_row & _ & _ & ->)].
Qed.

(** C1. Whenever the engine returns, and it returns as soon as the SKU frame
    has a priority column, it returns exactly one record per row of the SKU
    frame: as many records as rows, and the SKUs of the records are the SKUs
    of the rows. *)
Theorem one_record_per_sku sku_df loc_df :
  (forall out final,
     assign_skus sku_df loc_df = inr (out, final) ->
     length out = length (sku_rows sku_df)
     /\ out_SKU_ID <$> out ≡ₚ SKU_ID <$> sku_rows sku_df)
  /\ (has_column "AI_Priority_Score_100" sku_df = true
      \/ has_column "AI_Priority_Score" sku_df = true ->
      exists out final,
        assign_skus sku_df loc_df = inr (out, final)
        /\ length out = length (sku_rows sku_df)).
Proof.
  split.
  - intros out final E. split; [by eapply assign_skus_length|by eapply assign_skus_ids].
  - intros (out & final & E)%(assign_skus_returns _ loc_df).
    exists out, final. split; [done|]. by eapply assign_skus_length.
Qed.

(** C2. In every run, the record of a SKU that names a location is the
    placed record of that SKU at a location of the frame, and [can_store]
    holds of the SKU and that location. *)
Theorem placed_records_satisfy_can_store sku_df loc_df out final :
  assign_skus sku_df loc_df = inr (out, final) ->
  exists sorted,
    processing_order sku_df = inr sorted
    /\ Forall2
         (fun sku_row r =>
            names_location r = true ->
            exists loc_row, loc_row ∈ loc_df
              /\ r = placed (sku_columns sku_df) sku_row loc_row
              /\ can_store sku_row loc_row = true)
         sorted out.
Proof.
  intros (sorted & Hs & E)%assign_skus_inr. exists sorted. split; [done|].
  pose proof (assign_loop_records (sku_columns sku_df) sorted loc_df) as Hrec.
  rewrite E in Hrec. cbn [fst] in Hrec.
  eapply Forall2_impl; [exact Hrec|].
  intros sku_row r [->|(loc_row & Hin & Hcan & ->)] Hnames.
  - discriminate.
  - eauto.
Qed.

(** C7. For every SKU the engine passes over the locations that are full or
    incompatible and takes the first one that qualifies, however many it
    passed; when no location of the frame qualifies it emits the record with
    the five location fields null and leaves every counter as it is; and,
    the locations having an identifier, it emits a record without a location
    only then. *)
Theorem scan_skips_full_locations_and_goes_on columns sku_row :
  (forall l1 loc_row l2,
     Forall (fun l => has_room l = false \/ can_store sku_row l = false) l1 ->
     has_room loc_row = true -> can_store sku_row loc_row = true ->
     assign_one columns sku_row (l1 ++ loc_row :: l2)
     = (placed columns sku_row loc_row,
        l1 ++ set_used (Used_Slots loc_row + 1) loc_row :: l2))
  /\ (forall loc_df,
        Forall (fun l => has_room l = false \/ can_store sku_row l = false) loc_df ->
        assign_one columns sku_row loc_df = (unplaced columns sku_row, loc_df))
  /\ (forall r : Assignment LevelT RackT ScoreT,
        r = unplaced columns sku_row ->
        out_Zone r = PyNone /\ out_Aisle r = PyNone /\ out_Rack r = VNone
        /\ out_Level r = VNone /\ out_Location_ID r = PyNone)
  /\ (forall loc_df,
        Forall (fun l => isna (Location_ID (row l)) = false) loc_df ->
        names_location (assign_one columns sku_row loc_df).1 = false ->
        Forall (fun l => has_room l = false \/ can_store sku_row l = false) loc_df
        /\ (assign_one columns sku_row loc_df).2 = loc_df).
Proof.
  assert (Hq : forall l : RankedLoc LevelT RackT,
    has_room l = false \/ can_store sku_row l = false <-> qualifies sku_row l = false).
  { intros l. unfold qualifies.
    destruct (has_room l), (can_store sku_row l); cbn; intuition congruence. }
  split_and!.
  - intros l1 loc_row l2 Hl1 Hroom Hcan. apply assign_one_placed.
    + eapply Forall_impl; [exact Hl1|]. intros l. apply Hq.
    + unfold qualifies. by rewrite Hroom, Hcan.
  - intros loc_df Hall. apply assign_one_unplaced.
    eapply Forall_impl; [exact Hall|]. intros l. apply Hq.
  - by intros r ->.
  - intros loc_df Hids Hnull.
    destruct (assign_one_cases columns sku_row loc_df)
      as [[Hall E]|(l1 & loc_row & l2 & -> & _ & _ & E)];
      rewrite E in Hnull |- *; cbn [fst snd] in Hnull |- *.
    + split; [|done]. eapply Forall_impl; [exact Hall|]. intros l. apply Hq.
    + exfalso. apply Forall_app in Hids as [_ Hids].
      apply Forall_cons in Hids as [Hid _].
      unfold names_location in Hnull. cbn in Hnull. rewrite Hid in Hnull.
      by rewrite !andb_false_r in Hnull.
Qed.

(** C3. The counters are zero when the ranker returns the frame; a turn of
    the engine adds one to the counter of the location it places the SKU at
    and touches no other counter, and touches none when it places nothing;
    at every point of a run that starts from the ranker's frame every
    counter is at most the capacity, which is 5; and, the locations having
    distinct identifiers, at the end the counter of a location is the number
    of records that name it, at most 5. *)
Theorem used_slots_never_exceed_capacity sku_df raw :
  MAX_SKUS_PER_LOCATION = 5
  /\ Forall (fun l => Used_Slots l = 0) (prepare_locations raw)
  /\ (forall columns sku_row loc_df,
        match scan sku_row loc_df 0 with
        | Some (i, loc_row) =>
            loc_df !! i = Some loc_row
            /\ Used_Slots <$> (assign_one columns sku_row loc_df).2
               = <[i := Used_Slots loc_row + 1]> (Used_Slots <$> loc_df)
        | None => (assign_one columns sku_row loc_df).2 = loc_df
        end)
  /\ (forall p q,
        processing_order sku_df = inr (p ++ q) ->
        Forall (fun l => Used_Slots l <= MAX_SKUS_PER_LOCATION)
          (assign_loop (sku_columns sku_df) p (prepare_locations raw) []).2)
  /\ (forall out final,
        assign_skus sku_df (prepare_locations raw) = inr (out, final) ->
        NoDup (Location_ID <$> raw) ->
        forall i loc_row,
          final !! i = Some loc_row ->
          isna (Location_ID (row loc_row)) = false ->
          Z.of_nat (assigned_to (Location_ID (row loc_row)) out) = Used_Slots loc_row
          /\ (assigned_to (Location_ID (row loc_row)) out <= 5)%nat).
Proof.
  assert (Hzero : Forall (fun l : RankedLoc LevelT RackT => Used_Slots l = 0)
                    (prepare_locations raw)) by apply prepare_locations_zero.
  assert (Hstart : Forall (fun l : RankedLoc LevelT RackT =>
                             Used_Slots l <= MAX_SKUS_PER_LOCATION)
                     (prepare_locations raw)).
  { eapply Forall_impl; [exact Hzero|]. intros l ->. done. }
  split_and!.
  - reflexivity.
  - exact Hzero.
  - intros columns sku_row loc_df. unfold assign_one.
    destruct (scan sku_row loc_df 0) as [[i loc_row]|] eqn:E; [|done].
    apply scan_Some in E as (l1 & l2 & -> & -> & _ & _). cbn [snd].
    split; [by apply list_lookup_middle|].
    rewrite (list_fmap_alter Used_Slots _ (fun _ => Used_Slots loc_row + 1))
      by by apply Forall_true.
    rewrite fmap_app, fmap_cons. cbn [Nat.add].
    rewrite <- (length_fmap Used_Slots l1).
    rewrite <- (Nat.add_0_r (length (Used_Slots <$> l1))).
    by rewrite alter_app_r, insert_app_r.
  - intros p q _. by apply assign_loop_bound.
  - intros out final (sorted & Hs & E)%assign_skus_inr Hnd i loc_row Hi Hid.
    pose proof (assign_loop_rows (sku_columns sku_df) sorted (prepare_locations raw)) as Hrows.
    pose proof (assign_loop_bound (sku_columns sku_df) sorted _ Hstart) as Hb.
    rewrite E in Hrows, Hb. cbn [snd] in Hrows, Hb.
    assert (exists loc_row0, prepare_locations raw !! i = Some loc_row0
                             /\ row loc_row0 = row loc_row) as (loc_row0 & Hi0 & Hrow).
    { assert ((set_used 0 <$> prepare_locations raw) !! i = Some (set_used 0 loc_row)) as H0.
      { by rewrite <- Hrows, list_lookup_fmap, Hi. }
      rewrite list_lookup_fmap in H0.
      destruct (prepare_locations raw !! i) as [loc_row0|]; [|done].
      exists loc_row0. split; [done|]. injection H0 as H0. by rewrite H0. }
    pose proof (assign_loop_counts (sku_columns sku_df) sorted (prepare_locations raw)
                  i loc_row0 loc_row) as Hc.
    rewrite E in Hc. cbn [fst snd] in Hc. rewrite Hrow in Hc.
    rewrite Forall_lookup in Hzero, Hb.
    rewrite (Hzero _ _ Hi0) in Hc. specialize (Hb _ _ Hi).
    assert (Used_Slots loc_row
            = 0 + Z.of_nat (assigned_to (Location_ID (row loc_row)) out)) as Hu.
    { apply Hc; try done.
      rewrite prepare_locations_perm, <- list_fmap_compose. exact Hnd. }
    unfold MAX_SKUS_PER_LOCATION in Hb. lia.
Qed.

(** C8. When the SKU frame has no column [AI_Priority_Score_100], the first
    step of the run raises the error that names the column, and the run ends
    with that error: the locations are not ranked, no SKU is assigned and
    the output file is not written. *)
Theorem missing_score_column_aborts sku_df raw (w : World LevelT RackT ScoreT) :
  has_column "AI_Priority_Score_100" sku_df = false ->
  normalise_cols sku_df raw = inl (ValueError missing_score_message)
  /\ main sku_df raw w = (inl (ValueError missing_score_message), w).
Proof.
  intros Hcol.
  assert (normalise_cols sku_df raw = inl (ValueError missing_score_message)) as E.
  { unfold normalise_cols. by rewrite Hcol. }
  split; [exact E|].
  unfold main, mbind, M_bind, lift. by rewrite E.
Qed.

(** With the column the run goes through the engine and writes its records. *)
Lemma main_writes_the_assignments sku_df raw (w : World LevelT RackT ScoreT) :
  has_column "AI_Priority_Score_100" sku_df = true ->
  exists out final r,
    assign_skus sku_df (prepare_locations raw) = inr (out, final)
    /\ main sku_df raw w = (r, {| output_file := Some out |}).
Proof.
  intros Hcol.
  destruct (assign_skus_returns sku_df (prepare_locations raw) (or_introl Hcol))
    as (out & final & E).
  exists out, final.
  unfold main, mbind, M_bind, lift, normalise_cols. rewrite Hcol. cbn [negb].
  rewrite E. unfold to_csv, mret, M_ret.
  destruct (location_id_column out); eauto.
Qed.

(** C5, as the code has it.  The engine takes every SKU once, in descending
    order of priority score, the SKUs without a score last and in the order
    of the input; nothing more is fixed about SKUs of equal score. *)
Theorem skus_processed_by_descending_score sku_df sorted :
  processing_order sku_df = inr sorted ->
  sorted ≡ₚ sku_rows sku_df
  /\ StronglySorted
       (fun a b =>
          desc_na_last_le (priority_score (sku_columns sku_df) a)
                          (priority_score (sku_columns sku_df) b) = true)
       sorted
  /\ filter (fun r => val_isna (priority_score (sku_columns sku_df) r) = true) sorted
     = filter (fun r => val_isna (priority_score (sku_columns sku_df) r) = true)
         (sku_rows sku_df).
Proof.
  intros Hs. split_and!.
  - by apply processing_order_perm.
  - by apply processing_order_sorted.
  - apply processing_order_inr in Hs as ->. apply sort_values_desc_nans.
Qed.

(** C10. A run whose SKU frame has a priority column returns, whatever
    scores are missing: the SKUs without a score are taken after all the
    SKUs that have one, and every SKU, with or without a score, has its one
    record, which carries the SKU's identifier and its score as it is. *)
Theorem missing_score_is_lowest_priority sku_df loc_df :
  has_column "AI_Priority_Score_100" sku_df = true
  \/ has_column "AI_Priority_Score" sku_df = true ->
  exists scored_rows out final,
    processing_order sku_df
    = inr (scored_rows
           ++ filter (fun r => val_isna (priority_score (sku_columns sku_df) r) = true)
                (sku_rows sku_df))
    /\ Forall (fun r => val_isna (priority_score (sku_columns sku_df) r) = false)
         scored_rows
    /\ assign_skus sku_df loc_df = inr (out, final)
    /\ Forall2
         (fun sku_row r =>
            out_SKU_ID r = SKU_ID sku_row
            /\ out_Priority_Score r = priority_score (sku_columns sku_df) sku_row)
         (scored_rows
          ++ filter (fun r => val_isna (priority_score (sku_columns sku_df) r) = true)
               (sku_rows sku_df))
         out.
Proof.
  intros (sorted & Hs)%processing_order_total.
  pose proof (processing_order_inr _ _ Hs) as Hsorted.
  destruct (sort_values_desc_split (priority_score (sku_columns sku_df)) (sku_rows sku_df))
    as (scored_rows & Heq & Hscored).
  rewrite Heq in Hsorted. subst sorted.
  destruct (assign_loop (sku_columns sku_df)
              (scored_rows
               ++ filter (fun r => val_isna (priority_score (sku_columns sku_df) r) = true)
                    (sku_rows sku_df)) loc_df []) as [out final] eqn:E.
  exists scored_rows, out, final. split_and!; try done.
  - apply assign_skus_inr. eauto.
  - pose proof (assign_loop_records (sku_columns sku_df)
                  (scored_rows
                   ++ filter (fun r => val_isna (priority_score (sku_columns sku_df) r) = true)
                        (sku_rows sku_df)) loc_df) as Hrec.
    rewrite E in Hrec. cbn [fst] in Hrec.
    eapply Forall2_impl; [exact Hrec|].
    by intros sku_row r [->|(loc_row & _ & _ & ->)].
Qed.

(** *** Scarcity: the last slot *)

Lemma assign_one_index columns sku_row loc_df :
  (Forall (fun l => qualifies sku_row l = false) loc_df
   /\ assign_one columns sku_row loc_df = (unplaced columns sku_row, loc_df))
  \/ (exists j loc_row,
        loc_df !! j = Some loc_row
        /\ qualifies sku_row loc_row = true
        /\ assign_one columns sku_row loc_df
           = (placed columns sku_row loc_row,
              alter (set_used (Used_Slots loc_row + 1)) j loc_df)).
Proof.
  unfold assign_one. destruct (scan sku_row loc_df 0) as [[j loc_row]|] eqn:E.
  - right. exists j, loc_row. apply scan_Some in E as (l1 & l2 & -> & -> & _ & Hq).
    split_and!; [|done..]. by apply list_lookup_middle.
  - left. by apply scan_None in E.
Qed.

(** A location that does not qualify for a SKU never comes to qualify. *)
Lemma qualifies_set_used sku_row loc_row :
  qualifies sku_row loc_row = false ->
  qualifies sku_row (set_used (Used_Slots loc_row + 1) loc_row) = false.
Proof.
  unfold qualifies, has_room. rewrite can_store_set_used. cbn [Used_Slots set_used].
  destruct (can_store sku_row loc_row); [|by rewrite !andb_false_r].
  rewrite !andb_true_r, !Z.ltb_ge. lia.
Qed.

Lemma assign_one_blocked columns sku_row sku_b loc_df :
  Forall (fun l => qualifies sku_b l = false) loc_df ->
  Forall (fun l => qualifies sku_b l = false) (assign_one columns sku_row loc_df).2.
Proof.
  intros Hb.
  destruct (assign_one_cases columns sku_row loc_df)
    as [[_ ->]|(l1 & loc_row & l2 & -> & _ & _ & ->)]; [done|].
  cbn [snd]. rewrite Forall_app, Forall_cons in Hb |- *.
  destruct Hb as (? & ? & ?). split_and!; try done. by apply qualifies_set_used.
Qed.

Lemma assign_loop_blocked columns sku_rows sku_b loc_df :
  Forall (fun l => qualifies sku_b l = false) loc_df ->
  Forall (fun l => qualifies sku_b l = false)
    (assign_loop columns sku_rows loc_df []).2.
Proof.
  revert loc_df. induction sku_rows as [|sku_row rest IH]; intros loc_df Hb; [done|].
  rewrite assign_loop_cons. cbn [snd]. by apply IH, assign_one_blocked.
Qed.

Lemma qualifies_row sku_row loc_row loc_row' :
  row loc_row = row loc_row' -> Used_Slots loc_row = Used_Slots loc_row' ->
  qualifies sku_row loc_row = qualifies sku_row loc_row'.
Proof.
  unfold qualifies, has_room, can_store. by intros -> ->.
Qed.

Lemma can_store_row sku_row loc_row loc_row' :
  row loc_row = row loc_row' -> can_store sku_row loc_row = can_store sku_row loc_row'.
Proof. unfold can_store. by intros ->. Qed.

Lemma placed_row columns sku_row loc_row loc_row' :
  row loc_row = row loc_row' ->
  placed columns sku_row loc_row = placed columns sku_row loc_row'.
Proof. unfold placed. by intros ->. Qed.

Lemma last_slot_step columns sku_a sku_b slot i sku_row loc_df :
  last_slot sku_a sku_b slot i loc_df ->
  can_store sku_row slot = false ->
  last_slot sku_a sku_b slot i (assign_one columns sku_row loc_df).2.
Proof.
  intros [(s & Hi & Hrow & Hused) Hothers] Hx.
  destruct (assign_one_index columns sku_row loc_df)
    as [[_ ->]|(j & loc_row & Hj & Hq & ->)]; [by split; eauto|].
  cbn [snd].
  assert (j <> i) as Hji.
  { intros ->. assert (loc_row = s) as -> by congruence.
    apply andb_prop in Hq as [_ Hq].
    rewrite (can_store_row _ _ slot Hrow) in Hq. congruence. }
  split.
  - exists s. by rewrite list_lookup_alter_ne.
  - intros k l Hk Hki. destruct (decide (k = j)) as [->|Hkj].
    + rewrite list_lookup_alter_eq, Hj in Hk. injection Hk as <-.
      destruct (Hothers _ _ Hj Hji). split; by apply qualifies_set_used.
    + rewrite list_lookup_alter_ne in Hk by done. by apply (Hothers k l).
Qed.

Lemma last_slot_loop columns sku_a sku_b slot i sku_rows loc_df :
  last_slot sku_a sku_b slot i loc_df ->
  Forall (fun x => can_store x slot = false) sku_rows ->
  last_slot sku_a sku_b slot i (assign_loop columns sku_rows loc_df []).2.
Proof.
  revert loc_df. induction sku_rows as [|sku_row rest IH]; intros loc_df Hinv Hall; [done|].
  apply Forall_cons in Hall as [Hx Hall].
  rewrite assign_loop_cons. cbn [snd]. apply IH; [|done]. by apply last_slot_step.
Qed.

Lemma last_slot_taken columns sku_a sku_b slot i loc_df :
  last_slot sku_a sku_b slot i loc_df ->
  can_store sku_a slot = true ->
  (assign_one columns sku_a loc_df).1 = placed columns sku_a slot
  /\ Forall (fun l => qualifies sku_b l = false) (assign_one columns sku_a loc_df).2.
Proof.
  intros [(s & Hi & Hrow & Hused) Hothers] Ha.
  assert (qualifies sku_a s = true) as Hqs.
  { unfold qualifies, has_room. rewrite (can_store_row _ _ slot Hrow), Ha, Hused.
    reflexivity. }
  destruct (assign_one_index columns sku_a loc_df)
    as [[Hall _]|(j & loc_row & Hj & Hq & ->)].
  { rewrite Forall_lookup in Hall. specialize (Hall _ _ Hi). congruence. }
  destruct (decide (j = i)) as [->|Hji].
  2: { destruct (Hothers _ _ Hj Hji). congruence. }
  assert (loc_row = s) as -> by congruence. cbn [fst snd].
  split; [by apply placed_row|].
  apply Forall_lookup. intros k l Hk. destruct (decide (k = i)) as [->|Hki].
  - rewrite list_lookup_alter_eq, Hi in Hk. injection Hk as <-.
    unfold qualifies, has_room. cbn. rewrite Hused.
    replace (MAX_SKUS_PER_LOCATION - 1 + 1) with MAX_SKUS_PER_LOCATION by lia.
    by rewrite Z.ltb_irrefl.
  - rewrite list_lookup_alter_ne in Hk by done. by apply (Hothers k l).
Qed.

(** In a sorted list that holds [a] and [b], [a] stands before [b] when [b]
    may not stand before [a]. *)
Lemma sorted_split_two {A} (R : relation A) (l others : list A) a b :
  StronglySorted R l -> l ≡ₚ a :: b :: others -> ~ R b a ->
  exists p1 p2 p3, l = p1 ++ a :: p2 ++ b :: p3 /\ p1 ++ p2 ++ p3 ≡ₚ others.
Proof.
  intros Hs Hp Hba.
  assert (a ∈ l) as (p1 & q & ->)%list_elem_of_split.
  { rewrite Hp. apply list_elem_of_here. }
  rewrite <- Permutation_middle in Hp. apply Permutation_cons_inv in Hp.
  assert (b ∈ p1 ++ q) as Hb.
  { rewrite Hp. apply list_elem_of_here. }
  apply elem_of_app in Hb as [Hb|Hb].
  { exfalso. apply Hba.
    eapply (StronglySorted_app_1_elem_of _ p1 (a :: q)); [done..|].
    apply list_elem_of_here. }
  apply list_elem_of_split in Hb as (p2 & p3 & ->).
  exists p1, p2, p3. split; [done|].
  rewrite (assoc_L (++)) in Hp |- *.
  rewrite <- Permutation_middle in Hp. by apply Permutation_cons_inv in Hp.
Qed.

(** C9. Let the run have reached a state in which the location [slot] has
    exactly one place left, both [sku_a] and [sku_b] can be stored there, no
    other location qualifies for either of them, and none of the other SKUs
    still to be processed can be stored at [slot].  If [sku_a] has a strictly
    higher score than [sku_b], the record of [sku_a] is its placed record at
    [slot] and the record of [sku_b] is its unplaced record. *)
Theorem higher_priority_takes_the_last_slot
    sku_df loc_df before remaining sku_a sku_b others ka kb i slot :
  processing_order sku_df = inr (before ++ remaining) ->
  remaining ≡ₚ sku_a :: sku_b :: others ->
  priority_score (sku_columns sku_df) sku_a = Val ka ->
  priority_score (sku_columns sku_df) sku_b = Val kb ->
  cmp_le ka kb = false ->
  (assign_loop (sku_columns sku_df) before loc_df []).2 !! i = Some slot ->
  Used_Slots slot = MAX_SKUS_PER_LOCATION - 1 ->
  can_store sku_a slot = true ->
  can_store sku_b slot = true ->
  (forall j l,
     (assign_loop (sku_columns sku_df) before loc_df []).2 !! j = Some l -> j <> i ->
     qualifies sku_a l = false /\ qualifies sku_b l = false) ->
  Forall (fun x => can_store x slot = false) others ->
  exists p1 p2 p3 o0 o1 o2 o3 final,
    remaining = p1 ++ sku_a :: p2 ++ sku_b :: p3
    /\ assign_skus sku_df loc_df
       = inr (o0 ++ o1 ++ placed (sku_columns sku_df) sku_a slot
                 :: o2 ++ unplaced (sku_columns sku_df) sku_b :: o3,
              final)
    /\ length o0 = length before /\ length o1 = length p1
    /\ length o2 = length p2 /\ length o3 = length p3.
Proof.
  intros Hs Hperm Ha Hb Hlt Hi Hused Hca Hcb Hothers Hcont.
  set (columns := sku_columns sku_df) in *.
  pose proof (processing_order_sorted _ _ Hs) as Hsorted.
  apply StronglySorted_app_1_r in Hsorted.
  destruct (sorted_split_two _ remaining others sku_a sku_b Hsorted Hperm)
    as (p1 & p2 & p3 & -> & Hrest).
  { fold columns. rewrite Ha, Hb. cbn. by rewrite Hlt. }
  rewrite <- Hrest, !Forall_app in Hcont. destruct Hcont as (Hp1 & Hp2 & _).
  set (locs := (assign_loop columns before loc_df []).2) in *.
  assert (last_slot sku_a sku_b slot i locs) as Hinv.
  { split; [|exact Hothers]. by exists slot. }
  apply (last_slot_loop columns _ _ _ _ p1) in Hinv; [|done].
  set (locs1 := (assign_loop columns p1 locs []).2) in *.
  destruct (last_slot_taken columns _ _ _ _ _ Hinv Hca) as [Hrec Hblocked].
  set (locs2 := (assign_one columns sku_a locs1).2) in *.
  apply (assign_loop_blocked columns p2) in Hblocked.
  set (locs3 := (assign_loop columns p2 locs2 []).2) in *.
  pose proof (assign_one_unplaced columns sku_b locs3 Hblocked) as Hrecb.
  exists p1, p2, p3,
    (assign_loop columns before loc_df []).1,
    (assign_loop columns p1 locs []).1,
    (assign_loop columns p2 locs2 []).1,
    (assign_loop columns p3 locs3 []).1,
    (assign_loop columns p3 locs3 []).2.
  split_and!; [done| |apply assign_loop_length..].
  unfold assign_skus. rewrite Hs. f_equal. fold columns.
  rewrite (assign_loop_app columns before). fold locs.
  rewrite (assign_loop_app columns p1). fold locs1.
  rewrite (assign_loop_cons columns sku_a). fold locs2. rewrite Hrec.
  rewrite (assign_loop_app columns p2). fold locs3.
  rewrite (assign_loop_cons columns sku_b). rewrite Hrecb. cbn [fst snd].
  reflexivity.
Qed.

End RunFacts.

(** ** Worked examples *)

Module Examples.
Import Demo.

(** The argsort of the examples keeps ties; the one of the counterexample
    reverses them. *)
Definition keeping : Argsort Z := tie_keeping_argsort.
Definition reversing : Argsort Z := tie_reversing_argsort.

(** The run of the engine on the example. *)
Definition run : list (Assignment Z Z Z) * list (RankedLoc Z Z) :=
  match assign_skus (Argsort0 := keeping) skus ranked with
  | inr r => r
  | inl _ => ([], [])
  end.

(** The scenarios of the specification. *)
Example scenario_small_in_M_L :
  can_store (sku "X" (Val 1) "Small" "" "") (add_columns l1) = false.
Proof. reflexivity. Qed.

Example scenario_fragile_only :
  can_store (sku "X" (Val 1) "Small" "fragile" "")
    (add_columns (location "L" "Golden" "A1" 1 1 NaN (Str "Fragile-only"))) = true.
Proof. reflexivity. Qed.

Example scenario_hazard_in_chilled :
  can_store (sku "X" (Val 1) "Small" "" "Hazardous Chemicals")
    (add_columns (location "L" "Golden" "A1" 1 1 NaN (Str "Chilled storage"))) = false.
Proof. reflexivity. Qed.

Example scenario_aisle_numbers :
  aisle_num (Str "Aisle-07") = 7 /\ aisle_num (Str "Aisle-2") = 2
  /\ Location_ID <$> (row <$> ranked) = [Str "L1"; Str "L2"; Str "L3"].
Proof. vm_compute. done. Qed.

(** The run of the example: [L1] takes five SKUs; [B], which could be stored
    there, finds it full and no other location for it; [C] and [N] go on to
    [L3] and [L2]. *)
Example example_run :
  (fun r => (out_SKU_ID r, out_Location_ID r)) <$> run.1
  = [(Str "S1", Str "L1"); (Str "S2", Str "L1"); (Str "S3", Str "L1");
     (Str "S4", Str "L1"); (Str "A", Str "L1"); (Str "C", Str "L3");
     (Str "B", PyNone); (Str "N", Str "L2")]
  /\ Used_Slots <$> run.2 = [5; 1; 1].
Proof. vm_compute. done. Qed.

(** A cell that holds a text is compared as a code, whatever the text; an
    empty field of the file is not such a cell, it is loaded as [nan]. *)
Example text_cell_is_a_code :
  size_fits (Str "Small") (Str "") = false /\ size_fits (Str "Small") NaN = true
  /\ size_fits (Str "Small") (Str " s ") = true.
Proof. vm_compute. done. Qed.

Example aisle_number_of_an_integer :
  aisle_num (Int 12) = 12 /\ str (Int (-12)) = "-12".
Proof. vm_compute. done. Qed.

(** With an argsort that keeps ties the four SKUs of equal scores in pairs
    would be taken as the claim has it. *)
Example equal_scores_kept_by_a_tie_keeping_argsort :
  processing_order (Argsort0 := keeping) tied = inr [t2; t3; t0; t1].
Proof. vm_compute. reflexivity. Qed.

(** C4, the counterexample.  A Small SKU at a location whose allowed size is
    an empty text: compatible by the rules word for word, the allowed size
    being empty; rejected by [can_store], for which the empty text is a code
    other than S.  And a SKU whose size is written with blanks around it at a
    location for Large only: compatible by the rules word for word, the size
    not being one of the three; rejected by [can_store], which trims it and
    finds Small. *)
Lemma can_store_departs_from_the_rules_word_for_word :
  can_store_claimed small (add_columns empty_allowed) = true
  /\ can_store small (add_columns empty_allowed) = false
  /\ can_store_claimed padded_small (add_columns large_only) = true
  /\ can_store padded_small (add_columns large_only) = false.
Proof. vm_compute. done. Qed.

Example small_fits_where_the_size_is_absent :
  can_store small (add_columns l4) = true
  /\ can_store_claimed small (add_columns l4) = true.
Proof. vm_compute. done. Qed.

(** One record per SKU in the example. *)
Lemma one_record_per_sku_demo :
  length run.1 = length (sku_rows skus)
  /\ out_SKU_ID <$> run.1 ≡ₚ SKU_ID <$> sku_rows skus.
Proof.
  apply (proj1 (one_record_per_sku (Argsort0 := keeping) skus ranked) run.1 run.2).
  vm_compute. reflexivity.
Defined.

(** The counter of [L1] at the end of the example, and its records. *)
Lemma used_slots_never_exceed_capacity_demo :
  Z.of_nat (assigned_to (Str "L1") run.1) = 5
  /\ (assigned_to (Str "L1") run.1 <= 5)%nat.
Proof.
  apply (proj2 (proj2 (proj2 (proj2
           (used_slots_never_exceed_capacity (Argsort0 := keeping) skus locations))))
           run.1 run.2) with (i := 0%nat) (loc_row := full_l1).
  - vm_compute. reflexivity.
  - apply (bool_decide_unpack _). vm_compute. exact I.
  - vm_compute. reflexivity.
  - reflexivity.
Defined.

(** The ranker on the aisle texts of the example. *)
Lemma location_ranker_is_a_stable_sort_demo :
  aisle_num (Str ("Aisle-" +:+ "07" +:+ "")) = Text.int_of "07"
  /\ same_rank (add_columns l2) (add_columns l2) = true.
Proof.
  destruct (location_ranker_is_a_stable_sort locations)
    as (_ & _ & _ & _ & Htie & _ & _ & _ & _ & _ & Haisle).
  split.
  - apply Haisle; [reflexivity|discriminate|reflexivity..].
  - apply Htie; reflexivity.
Defined.

(** [B] finds [L1] full and [L2], [L3] incompatible, and is placed at [L4]. *)
Lemma scan_skips_full_locations_and_goes_on_demo :
  assign_one (sku_columns skus) sku_b
    ([full_l1; add_columns l2; add_columns l3] ++ add_columns l4 :: [])
  = (placed (sku_columns skus) sku_b (add_columns l4),
     [full_l1; add_columns l2; add_columns l3] ++ set_used 1 (add_columns l4) :: []).
Proof.
  apply (proj1 (scan_skips_full_locations_and_goes_on (sku_columns skus) sku_b)
           [full_l1; add_columns l2; add_columns l3] (add_columns l4) []).
  - repeat (constructor; [vm_compute; auto|]). constructor.
  - reflexivity.
  - reflexivity.
Defined.

(** The compatibility of every placed record of the example. *)
Lemma placed_records_satisfy_can_store_demo :
  exists sorted,
    processing_order (Argsort0 := keeping) skus = inr sorted
    /\ Forall2
         (fun sku_row r =>
            names_location r = true ->
            exists loc_row, loc_row ∈ ranked
              /\ r = placed (sku_columns skus) sku_row loc_row
              /\ can_store sku_row loc_row = true)
         sorted run.1.
Proof.
  apply (placed_records_satisfy_can_store (Argsort0 := keeping) skus ranked run.1 run.2).
  vm_compute. reflexivity.
Defined.

(** The processing order of the example. *)
Lemma skus_processed_by_descending_score_demo :
  [s1; s2; s3; s4; sku_a; sku_c; sku_b; sku_n] ≡ₚ sku_rows skus
  /\ StronglySorted
       (fun a b =>
          desc_na_last_le (priority_score (sku_columns skus) a)
                          (priority_score (sku_columns skus) b) = true)
       [s1; s2; s3; s4; sku_a; sku_c; sku_b; sku_n]
  /\ filter (fun r => val_isna (priority_score (sku_columns skus) r) = true)
       [s1; s2; s3; s4; sku_a; sku_c; sku_b; sku_n]
     = filter (fun r => val_isna (priority_score (sku_columns skus) r) = true)
         (sku_rows skus).
Proof.
  apply (skus_processed_by_descending_score (Argsort0 := keeping) skus).
  vm_compute. reflexivity.
Defined.

(** C5, the counterexample.  Four SKUs with the scores 0, 0, 1 and 1.  The
    sort reverses the column to 1, 1, 0, 0 and asks for its argsort; an
    argsort that brings the two runs in order by exchanging the first key
    with the last and the second with the third, as the exchange network of
    the library's vectorised quicksort does on a short column, and that
    leaves equal keys where they are, answers 3, 2, 1, 0.  The engine then
    takes [T3], [T2], [T1], [T0]: [T3] before [T2] and [T1] before [T0],
    although each pair has one score and stands the other way round in the
    input. *)
Lemma equal_scores_taken_out_of_input_order :
  sku_rows tied = [t0; t1; t2; t3]
  /\ priority_score (sku_columns tied) t0 = priority_score (sku_columns tied) t1
  /\ priority_score (sku_columns tied) t2 = priority_score (sku_columns tied) t3
  /\ argsort (Argsort := reversing) [1; 1; 0; 0] = [3; 2; 1; 0]%nat
  /\ processing_order (Argsort0 := reversing) tied = inr [t3; t2; t1; t0].
Proof. vm_compute. done. Qed.

(** A frame without the score column. *)
Lemma missing_score_column_aborts_demo :
  normalise_cols {| sku_columns := ["SKU_ID"]; sku_rows := [s1] |} locations
  = inl (ValueError missing_score_message)
  /\ main (Argsort0 := keeping) {| sku_columns := ["SKU_ID"]; sku_rows := [s1] |}
       locations {| output_file := None |}
     = (inl (ValueError missing_score_message), {| output_file := None |}).
Proof.
  apply (missing_score_column_aborts (Argsort0 := keeping)). vm_compute. reflexivity.
Defined.

(** The SKU without a score in the example. *)
Lemma missing_score_is_lowest_priority_demo :
  exists scored_rows out final,
    processing_order (Argsort0 := keeping) skus
    = inr (scored_rows
           ++ filter (fun r => val_isna (priority_score (sku_columns skus) r) = true)
                (sku_rows skus))
    /\ Forall (fun r => val_isna (priority_score (sku_columns skus) r) = false)
         scored_rows
    /\ assign_skus (Argsort0 := keeping) skus ranked = inr (out, final)
    /\ Forall2
         (fun sku_row r =>
            out_SKU_ID r = SKU_ID sku_row
            /\ out_Priority_Score r = priority_score (sku_columns skus) sku_row)
         (scored_rows
          ++ filter (fun r => val_isna (priority_score (sku_columns skus) r) = true)
               (sku_rows skus))
         out.
Proof.
  apply (missing_score_is_lowest_priority (Argsort0 := keeping) skus ranked).
  left. vm_compute. reflexivity.
Defined.

(** The last place of [L1] goes to [A], of score 50, and not to [B], of
    score 40; [C] and [N] cannot be stored there. *)
Lemma higher_priority_takes_the_last_slot_demo :
  exists p1 p2 p3 o0 o1 o2 o3 final,
    [sku_a; sku_c; sku_b; sku_n] = p1 ++ sku_a :: p2 ++ sku_b :: p3
    /\ assign_skus (Argsort0 := keeping) skus ranked
       = inr (o0 ++ o1 ++ placed (sku_columns skus) sku_a slot
                 :: o2 ++ unplaced (sku_columns skus) sku_b :: o3,
              final)
    /\ length o0 = length [s1; s2; s3; s4] /\ length o1 = length p1
    /\ length o2 = length p2 /\ length o3 = length p3.
Proof.
  apply (higher_priority_takes_the_last_slot (Argsort0 := keeping)
           skus ranked [s1; s2; s3; s4] [sku_a; sku_c; sku_b; sku_n]
           sku_a sku_b [sku_c; sku_n] 50 40 0%nat slot).
  - vm_compute. reflexivity.
  - apply perm_skip, perm_swap.
  - reflexivity.
  - reflexivity.
  - reflexivity.
  - vm_compute. reflexivity.
  - reflexivity.
  - reflexivity.
  - reflexivity.
  - intros [|[|[|j]]] l Hl Hj; try done; vm_compute in Hl;
      try discriminate Hl; injection Hl as <-; vm_compute; done.
  - repeat constructor.
Defined.

End Examples.

(** * Further properties of the code *)

(** ** The compatibility checker *)

Section MoreCheckerFacts.

Context {LevelT RackT ScoreT : Type}.
Implicit Types (sku_row : SkuRow ScoreT) (loc_row : RankedLoc LevelT RackT).

(** X1. A location that has neither an allowed size nor a special constraint
    (the key is missing, or the cell is [None] or [nan]) can store every
    SKU, whatever the SKU's fields are or lack. *)
Theorem unconstrained_location_stores_every_sku sku_row loc_row :
  isna (get (Allowed_Size_Class (row loc_row)) PyNone) = true ->
  isna (get (Special_Constraint (row loc_row)) PyNone) = true ->
  can_store sku_row loc_row = true.
Proof.
  unfold can_store, size_fits.
  destruct (Allowed_Size_Class (row loc_row)) as [[| |?|?]|]; try discriminate;
    destruct (Special_Constraint (row loc_row)) as [[| |?|?]|]; try discriminate;
    intros _ _; reflexivity.
Qed.

(** X2. Fragile handling never loses a location: a SKU whose handling type
    is fragile (trimmed, without regard to case) can be stored wherever a SKU
    of the same size class and category can. *)
Theorem fragile_handling_never_loses_a_location sku_row sku_row' loc_row :
  SKU_Size_Class sku_row' = SKU_Size_Class sku_row ->
  Family_or_Category sku_row' = Family_or_Category sku_row ->
  Text.lower (Text.strip (str (get (Handling_Type sku_row') (Str "")))) = "fragile" ->
  can_store sku_row loc_row = true ->
  can_store sku_row' loc_row = true.
Proof.
  unfold can_store. intros -> -> ->.
  change (String.eqb "fragile" "fragile") with true. cbn [negb].
  rewrite andb_false_r.
  destruct (negb (size_fits _ _)); [done|].
  destruct (_ && negb _); [done|].
  by destruct (_ && _).
Qed.

End MoreCheckerFacts.

(** ** The aisle number *)

Module MoreAisleFacts.
Import Text.

Lemma digit_value_nonneg c : isdigit c = true -> 0 <= Z.of_nat (nat_of_ascii c) - 48.
Proof.
  unfold isdigit. intros [H _]%andb_prop. apply Nat.leb_le in H. lia.
Qed.

Lemma int_digits_nonneg acc s : 0 <= acc -> 0 <= int_digits acc (digit_run s).
Proof.
  revert acc. induction s as [|c s IH]; intros acc Hacc; [done|].
  cbn [digit_run]. destruct (isdigit c) eqn:Hc; [|done].
  cbn [int_digits]. apply IH. pose proof (digit_value_nonneg c Hc). lia.
Qed.

Lemma search_digits_run s m : search_digits s = Some m -> exists s', m = digit_run s'.
Proof.
  induction s as [|c s IH]; [done|]. cbn [search_digits].
  destruct (isdigit c) eqn:Hc; [|exact IH]. intros [= <-].
  exists (String c s). cbn [digit_run]. by rewrite Hc.
Qed.

(** A text of digits is its own leftmost digit run, the empty text apart. *)
Lemma search_digits_all s :
  digit_run s = s ->
  match search_digits s with Some m => int_of m | None => 0 end = int_of s.
Proof.
  destruct s as [|c s]; [done|]. intros H. cbn [search_digits].
  destruct (isdigit c) eqn:Hc; [by rewrite H|].
  cbn [digit_run] in H. rewrite Hc in H. discriminate.
Qed.

Lemma pretty_N_char_digit d :
  (d < 10)%N ->
  isdigit (pretty_N_char d) = true
  /\ Z.of_nat (nat_of_ascii (pretty_N_char d)) - 48 = Z.of_N d.
Proof.
  intros Hd.
  assert (d = 0 \/ d = 1 \/ d = 2 \/ d = 3 \/ d = 4 \/ d = 5 \/ d = 6 \/ d = 7
          \/ d = 8 \/ d = 9)%N as H by lia.
  repeat (destruct H as [->|H]; [by vm_compute|]). subst. by vm_compute.
Qed.

Lemma pretty_N_go_digits x s : digit_run s = s -> digit_run (pretty_N_go x s) = pretty_N_go x s.
Proof.
  revert s. induction (N.lt_wf_0 x) as [x _ IH]; intros s Hs.
  assert (x = 0 \/ 0 < x)%N as [->|Hx] by lia; [by rewrite pretty_N_go_0|].
  rewrite pretty_N_go_step by done. apply IH; [by apply N.div_lt|].
  cbn [digit_run].
  destruct (pretty_N_char_digit (x `mod` 10)) as [-> _]; [by apply N.mod_lt|].
  by rewrite Hs.
Qed.

(** Reading the digits that [pretty_N_go] writes in front of [s]. *)
Lemma pretty_N_go_value x s :
  exists m, forall acc,
    int_digits acc (pretty_N_go x s) = int_digits (acc * m + Z.of_N x) s.
Proof.
  revert s. induction (N.lt_wf_0 x) as [x _ IH]; intros s.
  assert (x = 0 \/ 0 < x)%N as [->|Hx] by lia.
  { exists 1. intros acc. rewrite pretty_N_go_0. f_equal. lia. }
  destruct (IH (x `div` 10)%N (N.div_lt x 10 Hx eq_refl)
              (String (pretty_N_char (x `mod` 10)) s)) as (m & Hm).
  exists (10 * m). intros acc. rewrite pretty_N_go_step, Hm by done.
  cbn [int_digits]. f_equal.
  destruct (pretty_N_char_digit (x `mod` 10)) as [_ ->]; [by apply N.mod_lt|].
  rewrite (N.div_mod x 10) at 3 by done.
  rewrite N2Z.inj_add, N2Z.inj_mul. change (Z.of_N 10) with 10. lia.
Qed.

Lemma aisle_of_positive p :
  match search_digits (pretty (Zpos p)) with Some m => int_of m | None => 0 end = Zpos p.
Proof.
  change (pretty (Zpos p)) with (pretty_N_go (Npos p) "").
  rewrite search_digits_all by by apply pretty_N_go_digits.
  destruct (pretty_N_go_value (Npos p) "") as (m & Hm).
  unfold int_of. rewrite Hm. cbn [int_digits]. lia.
Qed.

End MoreAisleFacts.

(** X3. The aisle number is never negative, and the aisle number of an
    integer aisle is its absolute value: the sign is not a digit, and reading
    back the digits that [str] writes gives the number. *)
Theorem aisle_num_is_a_magnitude :
  (forall a, 0 <= aisle_num a) /\ (forall z, aisle_num (Int z) = Z.abs z).
Proof.
  split.
  - intros a. unfold aisle_num. destruct (isna a); [done|].
    destruct (Text.search_digits (str a)) as [m|] eqn:E; [|done].
    apply MoreAisleFacts.search_digits_run in E as (s' & ->).
    by apply MoreAisleFacts.int_digits_nonneg.
  - intros [|p|p]; unfold aisle_num; cbn [isna str].
    + reflexivity.
    + apply MoreAisleFacts.aisle_of_positive.
    + change (pretty (Zneg p)) with (String "-" (pretty (Zpos p))).
      change (Text.search_digits (String "-" (pretty (Zpos p))))
        with (Text.search_digits (pretty (Zpos p))).
      apply MoreAisleFacts.aisle_of_positive.
Qed.

(** ** The location ranker *)

Lemma stable_sort_of_sorted {A} (le : A -> A -> bool) l :
  StronglySorted (fun a b => le a b = true) l -> stable_sort le l = l.
Proof.
  induction 1 as [|x l Hs IH Hx]; [done|].
  cbn [stable_sort]. rewrite IH. destruct Hx as [|y l Hxy _]; [done|].
  cbn [insert_sorted]. by rewrite Hxy.
Qed.

Lemma fmap_fixed {A} (f : A -> A) l : Forall (fun x => f x = x) l -> f <$> l = l.
Proof. induction 1 as [|x l Hx _ IH]; [done|]. by rewrite fmap_cons, Hx, IH. Qed.

Section MoreRankerFacts.

Context {LevelT RackT : Type} `{!Comparable LevelT, !Comparable RackT}.
Implicit Types (a b : RankedLoc LevelT RackT) (raw : list (LocRow LevelT RackT)).

(** A row of the ranked frame carries the columns computed from itself. *)
Lemma prepare_locations_columns raw :
  Forall (fun l => add_columns (row l) = l) (prepare_locations raw).
Proof.
  rewrite prepare_locations_perm, Forall_fmap. by apply Forall_true.
Qed.

Lemma prepare_locations_sorted raw :
  StronglySorted (fun a b => rank_le a b = true) (prepare_locations raw).
Proof. apply stable_sort_sorted; [apply rank_le_total|apply rank_le_trans]. Qed.

Lemma prepare_locations_rows (loc_df : list (RankedLoc LevelT RackT)) raw :
  row <$> loc_df = row <$> prepare_locations raw ->
  prepare_locations (row <$> loc_df) = prepare_locations raw.
Proof.
  intros ->. unfold prepare_locations at 1. change map with (@fmap list _).
  rewrite <- list_fmap_compose.
  rewrite (fmap_fixed (add_columns ∘ row)) by apply prepare_locations_columns.
  apply stable_sort_of_sorted, prepare_locations_sorted.
Qed.

(** X4. Ranking is idempotent: ranking the rows of a ranked frame gives that
    frame again, in the same order and with the counters at zero. *)
Theorem prepare_locations_idempotent raw :
  prepare_locations (row <$> prepare_locations raw) = prepare_locations raw.
Proof. by apply prepare_locations_rows. Qed.

Lemma zone_rank_range (zone : cell) : 0 <= zone_rank zone <= 3.
Proof.
  destruct zone; cbn; try lia.
  repeat (destruct (String.eqb _ _); [lia|]). lia.
Qed.

Lemma zone_rank_golden (zone : cell) : zone_rank zone = 0 <-> zone = Str "Golden".
Proof.
  split; [|by intros ->].
  destruct zone as [| | |z]; cbn; try discriminate.
  destruct (String.eqb_spec z "Golden") as [->|]; [done|].
  repeat (destruct (String.eqb _ _); [discriminate|]). discriminate.
Qed.

(** X5. In the ranked frame the zones ascend: a location never stands before
    a location of a better zone, so that every Golden location stands before
    every other one; and within one zone rank the levels ascend, a missing
    level last. *)
Theorem ranked_zones_ascend raw p a q b r :
  prepare_locations raw = p ++ a :: q ++ b :: r ->
  zone_rank (Zone (row a)) <= zone_rank (Zone (row b))
  /\ (Zone (row b) = Str "Golden" -> Zone (row a) = Str "Golden")
  /\ (zone_rank (Zone (row a)) = zone_rank (Zone (row b)) ->
      na_last_le (Level (row a)) (Level (row b)) = true).
Proof.
  intros E.
  pose proof (prepare_locations_sorted raw) as Hs.
  pose proof (prepare_locations_columns raw) as Hc.
  rewrite E in Hs, Hc.
  apply StronglySorted_app_1_r, StronglySorted_cons in Hs as [Hab _].
  rewrite Forall_app, Forall_cons in Hab. destruct Hab as (_ & Hab & _).
  rewrite !Forall_app, !Forall_cons, Forall_app, Forall_cons in Hc.
  destruct Hc as (_ & Ha & _ & Hb & _).
  apply rank_le_lexicographic in Hab.
  rewrite <- Ha, <- Hb in Hab. cbn [ZoneRank add_columns] in Hab.
  assert (zone_rank (Zone (row a)) <= zone_rank (Zone (row b))) as Hle by lia.
  split_and!.
  - exact Hle.
  - intros Hgold. apply zone_rank_golden.
    apply zone_rank_golden in Hgold.
    pose proof (zone_rank_range (Zone (row a))). lia.
  - intros Heq. destruct Hab as [?|(_ & [Hlt|(? & _)])]; [lia| |done].
    destruct (na_last_le_total (Level (row a)) (Level (row b))); congruence.
Qed.

End MoreRankerFacts.

(** ** The assignment engine *)

Section MoreEngineFacts.

Context {LevelT RackT ScoreT : Type}.
Implicit Types (sku_row : SkuRow ScoreT) (loc_row : RankedLoc LevelT RackT).
Implicit Types (sku_rows p q : list (SkuRow ScoreT)).
Implicit Types (loc_df final : list (RankedLoc LevelT RackT)).
Implicit Types (a b : RankedLoc LevelT RackT).
Implicit Types (columns : list string).

Lemma assign_loop_no_room columns sku_rows loc_df :
  Forall (fun l => has_room l = false) loc_df ->
  assign_loop columns sku_rows loc_df [] = (unplaced columns <$> sku_rows, loc_df).
Proof.
  intros Hfull. induction sku_rows as [|sku_row rest IH]; [done|].
  rewrite assign_loop_cons, assign_one_unplaced.
  - cbn [fst snd]. by rewrite IH.
  - eapply Forall_impl; [exact Hfull|]. intros l Hl. unfold qualifies. by rewrite Hl.
Qed.

Lemma only_counted_refl a : only_counted a a.
Proof. unfold only_counted. auto 10 with lia. Qed.

Lemma only_counted_step a b :
  only_counted a b -> has_room b = true ->
  only_counted a (set_used (Used_Slots b + 1) b).
Proof.
  unfold only_counted, has_room. intros (? & ? & ? & ? & _) Hroom%Z.ltb_lt.
  cbn. split_and!; auto with lia.
Qed.

Lemma assign_one_only_counted columns sku_row loc_df0 loc_df :
  Forall2 only_counted loc_df0 loc_df ->
  Forall2 only_counted loc_df0 (assign_one columns sku_row loc_df).2.
Proof.
  intros H.
  destruct (assign_one_cases columns sku_row loc_df)
    as [[_ ->]|(l1 & loc_row & l2 & -> & _ & Hq & ->)]; [done|].
  cbn [snd]. apply Forall2_app_inv_r in H as (k1 & k2' & H1 & H2 & ->).
  apply Forall2_cons_inv_r in H2 as (c & k2 & Hc & H2 & ->).
  apply Forall2_app; [done|]. constructor; [|done].
  apply only_counted_step; [done|]. by apply andb_prop in Hq as [? _].
Qed.

Lemma assign_loop_only_counted columns sku_rows loc_df0 loc_df :
  Forall2 only_counted loc_df0 loc_df ->
  Forall2 only_counted loc_df0 (assign_loop columns sku_rows loc_df []).2.
Proof.
  revert loc_df. induction sku_rows as [|sku_row rest IH]; intros loc_df H; [done|].
  rewrite assign_loop_cons. cbn [snd]. by apply IH, assign_one_only_counted.
Qed.

(** X6. The engine does not go back on a record: the records of the first
    SKUs of a batch are those of a run on these SKUs alone, whatever SKUs
    follow, and the records of the following SKUs are those of a run that
    starts from the frame the first ones left. *)
Theorem records_are_never_revised columns p q loc_df :
  take (length p) (assign_loop columns (p ++ q) loc_df []).1
  = (assign_loop columns p loc_df []).1
  /\ drop (length p) (assign_loop columns (p ++ q) loc_df []).1
     = (assign_loop columns q (assign_loop columns p loc_df []).2 []).1
  /\ (assign_loop columns (p ++ q) loc_df []).2
     = (assign_loop columns q (assign_loop columns p loc_df []).2 []).2.
Proof.
  rewrite assign_loop_app. cbn [fst snd].
  rewrite <- (assign_loop_length columns p loc_df).
  by rewrite take_app_length, drop_app_length.
Qed.

(** A SKU without a location at its turn has none at the end of the run. *)
Lemma assign_loop_unplaced_blocked columns sku_rows loc_df :
  Forall (fun l => isna (Location_ID (row l)) = false) loc_df ->
  Forall2
    (fun sku_row r =>
       isna (out_Location_ID r) = true ->
       Forall (fun l => qualifies sku_row l = false)
         (assign_loop columns sku_rows loc_df []).2)
    sku_rows (assign_loop columns sku_rows loc_df []).1.
Proof.
  revert loc_df. induction sku_rows as [|sku_row rest IH]; intros loc_df Hids.
  { constructor. }
  rewrite assign_loop_cons. cbn [fst snd].
  destruct (assign_one_cases columns sku_row loc_df)
    as [[Hall E]|(l1 & loc_row & l2 & -> & _ & _ & E)]; rewrite E; cbn [fst snd].
  - constructor; [|by apply IH].
    intros _. by apply assign_loop_blocked.
  - constructor.
    + cbn. intros Hna. apply Forall_app in Hids as [_ Hids].
      apply Forall_cons in Hids as [Hid _]. congruence.
    + apply IH. rewrite Forall_app, Forall_cons in Hids |- *. exact Hids.
Qed.

Lemma total_used_app loc_df1 loc_df2 :
  total_used (loc_df1 ++ loc_df2) = total_used loc_df1 + total_used loc_df2.
Proof.
  unfold total_used. induction loc_df1 as [|l loc_df1 IH]; [done|].
  cbn in *. lia.
Qed.

(** The slots in use grow by the number of records that name a location. *)
Lemma assign_loop_total_used columns sku_rows loc_df :
  Forall (fun l => isna (Location_ID (row l)) = false) loc_df ->
  total_used (assign_loop columns sku_rows loc_df []).2
  = total_used loc_df
    + Z.of_nat (length (filter (fun r => isna (out_Location_ID r) = false)
                          (assign_loop columns sku_rows loc_df []).1)).
Proof.
  revert loc_df. induction sku_rows as [|sku_row rest IH]; intros loc_df Hids.
  { cbn [assign_loop fst snd]. rewrite filter_nil. cbn [length]. lia. }
  rewrite assign_loop_cons. cbn [fst snd]. rewrite filter_cons.
  destruct (assign_one_cases columns sku_row loc_df)
    as [[Hall E]|(l1 & loc_row & l2 & -> & _ & _ & E)]; rewrite E; cbn [fst snd].
  - rewrite decide_False by done. by apply IH.
  - assert (isna (Location_ID (row loc_row)) = false) as Hid.
    { apply Forall_app in Hids as [_ Hids]. by apply Forall_cons in Hids as [? _]. }
    rewrite decide_True by done. rewrite IH.
    + rewrite !total_used_app. unfold total_used. cbn. lia.
    + rewrite Forall_app, Forall_cons in Hids |- *. exact Hids.
Qed.

End MoreEngineFacts.

(** ** A run of the engine, and the program *)

Section MoreRunFacts.

Context {LevelT RackT ScoreT : Type}.
Context `{!Comparable LevelT, !Comparable RackT, !Comparable ScoreT, !Argsort ScoreT}.
Implicit Types (sku_row : SkuRow ScoreT) (loc_row : RankedLoc LevelT RackT).
Implicit Types (sku_df : SkuFrame ScoreT) (sorted : list (SkuRow ScoreT)).
Implicit Types (loc_df final : list (RankedLoc LevelT RackT)).
Implicit Types (raw : list (LocRow LevelT RackT)).
Implicit Types (out : list (Assignment LevelT RackT ScoreT)).

(** X7. When no location has room left, and so when there is no location at
    all, every SKU gets its unplaced record, in processing order, and the
    frame is left as it was. *)
Theorem no_room_means_all_unplaced sku_df loc_df sorted :
  processing_order sku_df = inr sorted ->
  Forall (fun l => has_room l = false) loc_df ->
  assign_skus sku_df loc_df = inr (unplaced (sku_columns sku_df) <$> sorted, loc_df).
Proof.
  intros Hs Hfull. unfold assign_skus. rewrite Hs. f_equal.
  by apply assign_loop_no_room.
Qed.

(** X8. A run changes nothing of the location frame but counters: the frame
    keeps its length and order, every location its row and computed columns;
    a counter never goes down, stops at the capacity, and is not touched
    when it starts at or over the capacity. *)
Theorem run_only_raises_counters sku_df loc_df out final :
  assign_skus sku_df loc_df = inr (out, final) ->
  Forall2 only_counted loc_df final.
Proof.
  intros (sorted & _ & E)%assign_skus_inr.
  pose proof (assign_loop_only_counted (sku_columns sku_df) sorted loc_df loc_df) as H.
  rewrite E in H. apply H.
  apply Forall_Forall2_diag, Forall_forall. intros a _. apply only_counted_refl.
Qed.

(** X9. No SKU is left without a location while a place it could take stays
    free: when the locations have an identifier, a SKU whose record has no
    location identifier finds, in the frame as the run leaves it, no location
    that has room and can store it. *)
Theorem unplaced_skus_have_no_place_left sku_df loc_df out final :
  assign_skus sku_df loc_df = inr (out, final) ->
  Forall (fun l => isna (Location_ID (row l)) = false) loc_df ->
  exists sorted,
    processing_order sku_df = inr sorted
    /\ Forall2
         (fun sku_row r =>
            isna (out_Location_ID r) = true ->
            Forall (fun l => has_room l = false \/ can_store sku_row l = false) final)
         sorted out.
Proof.
  intros (sorted & Hs & E)%assign_skus_inr Hids. exists sorted. split; [done|].
  pose proof (assign_loop_unplaced_blocked (sku_columns sku_df) sorted loc_df Hids) as H.
  rewrite E in H. cbn [fst snd] in H.
  eapply Forall2_impl; [exact H|]. intros sku_row r Hr Hna.
  eapply Forall_impl; [exact (Hr Hna)|]. intros l. unfold qualifies.
  destruct (has_room l), (can_store sku_row l); cbn; auto.
Qed.

(** X10. The slots in use account for the records: when the locations have
    an identifier, the counters of the frame grow, in total, by the number of
    records that carry a location identifier, which is the number of assigned
    SKUs that the program reports. *)
Theorem slots_in_use_count_the_placed_records sku_df loc_df out final :
  assign_skus sku_df loc_df = inr (out, final) ->
  Forall (fun l => isna (Location_ID (row l)) = false) loc_df ->
  total_used final
  = total_used loc_df
    + Z.of_nat (length (filter (fun r => isna (out_Location_ID r) = false) out)).
Proof.
  intros (sorted & _ & E)%assign_skus_inr Hids.
  pose proof (assign_loop_total_used (sku_columns sku_df) sorted loc_df Hids) as H.
  by rewrite E in H.
Qed.

(** X11. Ranking again after a run gives the frame the run started from:
    the run has changed counters only, and the ranker resets them. *)
Theorem ranking_again_undoes_a_run sku_df raw out final :
  assign_skus sku_df (prepare_locations raw) = inr (out, final) ->
  prepare_locations (row <$> final) = prepare_locations raw.
Proof.
  intros (sorted & _ & E)%assign_skus_inr.
  apply prepare_locations_rows.
  pose proof (assign_loop_rows (sku_columns sku_df) sorted (prepare_locations raw)) as H.
  rewrite E in H. cbn [snd] in H.
  apply (f_equal (fmap row)) in H. by rewrite <- !list_fmap_compose in H.
Qed.

(** X12. The score column the engine goes by.  With neither score column the
    engine raises [KeyError] for [AI_Priority_Score] and emits nothing; with
    only [AI_Priority_Score] it runs, takes the SKUs by that column and
    copies it into the records; with [AI_Priority_Score_100] it goes by that
    column, whether the other one is there or not. *)
Theorem assign_skus_score_column sku_df loc_df :
  (has_column "AI_Priority_Score_100" sku_df = false ->
   has_column "AI_Priority_Score" sku_df = false ->
   assign_skus sku_df loc_df = inl (KeyError "AI_Priority_Score"))
  /\ (has_column "AI_Priority_Score_100" sku_df = false ->
      has_column "AI_Priority_Score" sku_df = true ->
      exists out final,
        assign_skus sku_df loc_df = inr (out, final)
        /\ Forall2 (fun sku_row r => out_Priority_Score r = AI_Priority_Score sku_row)
             (sort_values_desc AI_Priority_Score (sku_rows sku_df)) out)
  /\ (has_column "AI_Priority_Score_100" sku_df = true ->
      exists out final,
        assign_skus sku_df loc_df = inr (out, final)
        /\ Forall2 (fun sku_row r => out_Priority_Score r = AI_Priority_Score_100 sku_row)
             (sort_values_desc AI_Priority_Score_100 (sku_rows sku_df)) out).
Proof.
  assert (Hrec : forall sorted,
    Forall2 (fun sku_row r =>
               out_Priority_Score r = priority_score (sku_columns sku_df) sku_row)
      sorted (assign_loop (sku_columns sku_df) sorted loc_df []).1).
  { intros sorted.
    eapply Forall2_impl; [apply assign_loop_records|].
    by intros sku_row r [->|(loc_row & _ & _ & ->)]. }
  unfold assign_skus, processing_order. split_and!.
  - by intros -> ->.
  - intros H100 Hfb. rewrite H100, Hfb. do 2 eexists. split; [by rewrite <- surjective_pairing|].
    eapply Forall2_impl; [apply Hrec|]. intros sku_row r ->.
    unfold priority_score. unfold has_column in H100, Hfb. by rewrite H100, Hfb.
  - intros H100. rewrite H100. do 2 eexists. split; [by rewrite <- surjective_pairing|].
    eapply Forall2_impl; [apply Hrec|]. intros sku_row r ->.
    unfold priority_score. unfold has_column in H100. by rewrite H100.
Qed.

Lemma sort_values_desc_nil {A} (key : A -> val ScoreT) : sort_values_desc key [] = [].
Proof. apply Permutation_nil_r, sort_values_desc_perm. Qed.

Lemma filter_fmap_length {A B} (f : A -> B) (P : B -> Prop) `{!forall x, Decision (P x)} l :
  length (filter P (f <$> l)) = length (filter (fun x => P (f x)) l).
Proof.
  induction l as [|x l IH]; [done|].
  rewrite fmap_cons, !filter_cons. destruct (decide (P (f x))); cbn; by rewrite IH.
Qed.

(** X13. A run of the program on a SKU table that has the score column and
    at least one row succeeds: it writes the records of the engine on the
    ranked locations, one per SKU, and reports the number of SKUs, the number
    of records with a location identifier and the number without, which add
    up to the number of SKUs. *)
Theorem main_reports_what_it_writes sku_df raw (w : World LevelT RackT ScoreT) :
  has_column "AI_Priority_Score_100" sku_df = true ->
  sku_rows sku_df <> [] ->
  exists out final assigned unassigned,
    assign_skus sku_df (prepare_locations raw) = inr (out, final)
    /\ main sku_df raw w
       = (inr (length (sku_rows sku_df), assigned, unassigned),
          {| output_file := Some out |})
    /\ length out = length (sku_rows sku_df)
    /\ assigned = length (filter (fun r => isna (out_Location_ID r) = false) out)
    /\ unassigned = length (filter (fun r => isna (out_Location_ID r) = true) out)
    /\ (assigned + unassigned = length (sku_rows sku_df))%nat.
Proof.
  intros Hcol Hrows.
  destruct (assign_skus_returns sku_df (prepare_locations raw) (or_introl Hcol))
    as (out & final & E).
  pose proof (assign_skus_length _ _ _ _ E) as Hlen.
  exists out, final,
    (length (filter (fun r => isna (out_Location_ID r) = false) out)),
    (length (filter (fun r => isna (out_Location_ID r) = true) out)).
  split_and!; try done.
  - unfold main, mbind, M_bind, lift, normalise_cols. rewrite Hcol. cbn [negb].
    rewrite E. unfold to_csv, mret, M_ret.
    destruct out as [|r out]; [by destruct (sku_rows sku_df)|].
    cbn [location_id_column]. change map with (@fmap list _).
    by rewrite !filter_fmap_length.
  - rewrite <- Hlen, <- length_app.
    apply Permutation_length, (filter_bool_split (fun r => isna (out_Location_ID r))).
Qed.

(** X14. A run of the program on a SKU table that has the score column and
    no row writes an output without any record and then fails in its report,
    with [KeyError] for [Location_ID], the column it counts by. *)
Theorem main_fails_after_writing_an_empty_table sku_df raw (w : World LevelT RackT ScoreT) :
  has_column "AI_Priority_Score_100" sku_df = true ->
  sku_rows sku_df = [] ->
  main sku_df raw w = (inl (KeyError "Location_ID"), {| output_file := Some [] |}).
Proof.
  intros Hcol Hrows.
  unfold main, mbind, M_bind, lift, normalise_cols. rewrite Hcol. cbn [negb].
  unfold assign_skus, processing_order. rewrite Hcol, Hrows, sort_values_desc_nil.
  reflexivity.
Qed.

(** X15. No priority inversion: when the locations have an identifier, a SKU
    that the engine leaves without a location cannot be stored at any
    location that the engine gives to a SKU it takes later. *)
Theorem later_skus_take_nothing_from_an_unplaced_one
    sku_df loc_df p1 sku_a p2 sku_b p3 o1 r_a o2 r_b o3 final :
  processing_order sku_df = inr (p1 ++ sku_a :: p2 ++ sku_b :: p3) ->
  assign_skus sku_df loc_df = inr (o1 ++ r_a :: o2 ++ r_b :: o3, final) ->
  length o1 = length p1 -> length o2 = length p2 ->
  Forall (fun l => isna (Location_ID (row l)) = false) loc_df ->
  isna (out_Location_ID r_a) = true ->
  isna (out_Location_ID r_b) = false ->
  exists loc_row,
    loc_row ∈ loc_df
    /\ r_b = placed (sku_columns sku_df) sku_b loc_row
    /\ can_store sku_b loc_row = true
    /\ can_store sku_a loc_row = false.
Proof.
  intros Hs Hrun Hl1 Hl2 Hids Hra Hrb.
  unfold assign_skus in Hrun. rewrite Hs in Hrun. injection Hrun as Hrun.
  set (columns := sku_columns sku_df) in *.
  rewrite (assign_loop_app columns p1) in Hrun.
  set (locs1 := (assign_loop columns p1 loc_df []).2) in *.
  rewrite (assign_loop_cons columns sku_a) in Hrun.
  set (locs2 := (assign_one columns sku_a locs1).2) in *.
  rewrite (assign_loop_app columns p2) in Hrun.
  set (locs3 := (assign_loop columns p2 locs2 []).2) in *.
  rewrite (assign_loop_cons columns sku_b) in Hrun.
  cbn [fst snd] in Hrun. injection Hrun as Hout _.
  apply app_inj_1 in Hout as [_ Hout]; [|by rewrite assign_loop_length].
  injection Hout as Ha Hout.
  apply app_inj_1 in Hout as [_ Hout]; [|by rewrite assign_loop_length].
  injection Hout as Hb _.
  assert (Hrows1 : set_used 0 <$> locs1 = set_used 0 <$> loc_df)
    by apply assign_loop_rows.
  assert (Hrows3 : set_used 0 <$> locs3 = set_used 0 <$> loc_df).
  { unfold locs3, locs2. by rewrite assign_loop_rows, assign_one_rows. }
  assert (Hids1 : Forall (fun l => isna (Location_ID (row l)) = false) locs1).
  { apply Forall_forall. intros l Hl.
    destruct (same_rows_elem_of loc_df locs1 l Hrows1 Hl) as (l0 & Hl0 & E).
    rewrite Forall_forall in Hids. specialize (Hids _ Hl0).
    apply (f_equal row) in E. cbn in E. by rewrite <- E. }
  assert (Hblocked : Forall (fun l => qualifies sku_a l = false) locs3).
  { unfold locs3. apply assign_loop_blocked. unfold locs2.
    destruct (assign_one_cases columns sku_a locs1)
      as [[Hall E]|(l1 & loc_row & l2 & Heq & _ & _ & E)]; rewrite E; [done|].
    exfalso. rewrite E in Ha. cbn [fst] in Ha. rewrite <- Ha in Hra. cbn in Hra.
    rewrite Heq, Forall_app, Forall_cons in Hids1. destruct Hids1 as (_ & ? & _).
    congruence. }
  destruct (assign_one_cases columns sku_b locs3)
    as [[_ E]|(l1 & loc_row & l2 & Heq & _ & Hq & E)]; rewrite E in Hb; cbn [fst] in Hb.
  { rewrite <- Hb in Hrb. discriminate. }
  destruct (same_rows_elem_of loc_df locs3 loc_row Hrows3) as (loc_row0 & Hin & E0).
  { rewrite Heq, elem_of_app, elem_of_cons. auto. }
  rewrite Heq, Forall_app, Forall_cons in Hblocked. destruct Hblocked as (_ & Hqa & _).
  apply andb_prop in Hq as [Hroom Hcan]. unfold qualifies in Hqa. rewrite Hroom in Hqa.
  exists loc_row0. split_and!; [done|..].
  - rewrite <- Hb.
    transitivity (placed columns sku_b (set_used 0 loc_row0)); [|reflexivity].
    by rewrite E0.
  - transitivity (can_store sku_b (set_used 0 loc_row0)); [reflexivity|].
    by rewrite E0.
  - transitivity (can_store sku_a (set_used 0 loc_row0)); [reflexivity|].
    by rewrite E0.
Qed.

End MoreRunFacts.

(** ** The order of the SKUs when no two scores tie *)

Section OrderFixedByScores.

Context {LevelT RackT ScoreT : Type} `{!Comparable ScoreT}.
Variables np1 np2 : Argsort ScoreT.

Lemma elem_of_with_key {A} (key : A -> val ScoreT) (rows : list A) k r :
  (k, r) ∈ omap (with_key key) rows -> r ∈ rows /\ key r = Val k.
Proof.
  intros (r' & Hin & E)%list_elem_of_omap. unfold with_key in E.
  destruct (key r') eqn:Hk; try discriminate. by injection E as -> ->.
Qed.

Lemma sort_values_desc_unique {A} (key : A -> val ScoreT) (rows : list A) :
  (forall r1 r2 k1 k2,
     r1 ∈ rows -> r2 ∈ rows -> key r1 = Val k1 -> key r2 = Val k2 ->
     cmp_le k1 k2 = true -> cmp_le k2 k1 = true -> r1 = r2) ->
  @sort_values_desc _ _ _ np1 key rows = @sort_values_desc _ _ _ np2 key rows.
Proof.
  intros Hties.
  destruct (@sort_values_desc_shape _ _ _ np1 key rows) as (scored1 & -> & Hp1 & Hs1).
  destruct (@sort_values_desc_shape _ _ _ np2 key rows) as (scored2 & -> & Hp2 & Hs2).
  f_equal. f_equal.
  eapply (StronglySorted_unique_strong _ _ _ _ Hs1 Hs2).
  Unshelve.
  - by rewrite Hp1, Hp2.
  - intros [k1 r1] [k2 r2] H1 H2 H12 H21. cbn in H12, H21.
    rewrite Hp1 in H1. rewrite Hp2 in H2.
    apply elem_of_with_key in H1 as [Hr1 Hk1], H2 as [Hr2 Hk2].
    assert (r1 = r2) as -> by eauto.
    f_equal. congruence.
Qed.

(** X16. When no two SKUs tie, that is when two rows whose scores compare
    equal are the same row, the order in which the engine takes the SKUs, and
    with it the whole outcome of the engine, does not depend on the library's
    sort: any two argsorts give the same. *)
Theorem distinct_scores_fix_the_order (sku_df : SkuFrame ScoreT) :
  (forall r1 r2 k1 k2,
     r1 ∈ sku_rows sku_df -> r2 ∈ sku_rows sku_df ->
     priority_score (sku_columns sku_df) r1 = Val k1 ->
     priority_score (sku_columns sku_df) r2 = Val k2 ->
     cmp_le k1 k2 = true -> cmp_le k2 k1 = true -> r1 = r2) ->
  processing_order (Argsort0 := np1) sku_df = processing_order (Argsort0 := np2) sku_df
  /\ forall loc_df : list (RankedLoc LevelT RackT),
       assign_skus (Argsort0 := np1) sku_df loc_df
       = assign_skus (Argsort0 := np2) sku_df loc_df.
Proof.
  intros Hties.
  assert (processing_order (Argsort0 := np1) sku_df
          = processing_order (Argsort0 := np2) sku_df) as E.
  { unfold processing_order, priority_score, has_column in *.
    destruct (bool_decide ("AI_Priority_Score_100" ∈ sku_columns sku_df)).
    { f_equal. by apply sort_values_desc_unique. }
    destruct (bool_decide ("AI_Priority_Score" ∈ sku_columns sku_df)); [|done].
    f_equal. by apply sort_values_desc_unique. }
  split; [exact E|]. intros loc_df. unfold assign_skus. by rewrite E.
Qed.

End OrderFixedByScores.

(** ** Worked examples of the further properties *)

Module MoreExamples.
Import Demo Demo2 Examples.

(** The location without constraints stores a SKU of any kind. *)
Lemma unconstrained_location_stores_every_sku_demo :
  can_store sku_n open_location = true.
Proof.
  apply unconstrained_location_stores_every_sku; reflexivity.
Defined.

(** [S1] cannot go to the fragile-only location; its fragile twin can go
    wherever [S1] can. *)
Lemma fragile_handling_never_loses_a_location_demo :
  can_store s1_fragile (add_columns l1) = true.
Proof.
  apply (fragile_handling_never_loses_a_location s1 s1_fragile); reflexivity.
Defined.

Example fragile_only_rejects_the_plain_twin :
  can_store s1 fragile_only = false /\ can_store s1_fragile fragile_only = true.
Proof. vm_compute. done. Qed.

(** [L1], Golden, stands before [L3], Overflow. *)
Lemma ranked_zones_ascend_demo :
  zone_rank (Zone (row (add_columns l1))) <= zone_rank (Zone (row (add_columns l3)))
  /\ (Zone (row (add_columns l3)) = Str "Golden" ->
      Zone (row (add_columns l1)) = Str "Golden")
  /\ (zone_rank (Zone (row (add_columns l1))) = zone_rank (Zone (row (add_columns l3))) ->
      na_last_le (Level (row (add_columns l1))) (Level (row (add_columns l3))) = true).
Proof.
  apply (ranked_zones_ascend locations [] (add_columns l1) [add_columns l2]
           (add_columns l3) []).
  vm_compute. reflexivity.
Defined.

(** With [L1] full and alone, every SKU of the example is unplaced. *)
Lemma no_room_means_all_unplaced_demo :
  assign_skus (Argsort0 := keeping) skus [full_l1]
  = inr (unplaced (sku_columns skus) <$> [s1; s2; s3; s4; sku_a; sku_c; sku_b; sku_n],
         [full_l1]).
Proof.
  apply (no_room_means_all_unplaced (Argsort0 := keeping)).
  - vm_compute. reflexivity.
  - repeat constructor.
Defined.

Lemma run_only_raises_counters_demo : Forall2 only_counted ranked run.2.
Proof.
  apply (run_only_raises_counters (Argsort0 := keeping) skus ranked run.1 run.2).
  vm_compute. reflexivity.
Defined.

(** [B], the unplaced SKU of the example, has no place left at the end. *)
Lemma unplaced_skus_have_no_place_left_demo :
  exists sorted,
    processing_order (Argsort0 := keeping) skus = inr sorted
    /\ Forall2
         (fun sku_row r =>
            isna (out_Location_ID r) = true ->
            Forall (fun l => has_room l = false \/ can_store sku_row l = false) run.2)
         sorted run.1.
Proof.
  apply (unplaced_skus_have_no_place_left (Argsort0 := keeping) skus ranked run.1 run.2).
  - vm_compute. reflexivity.
  - repeat constructor.
Defined.

(** Seven slots in use for the seven placed records of the example. *)
Lemma slots_in_use_count_the_placed_records_demo :
  total_used run.2
  = total_used ranked
    + Z.of_nat (length (filter (fun r => isna (out_Location_ID r) = false) run.1)).
Proof.
  apply (slots_in_use_count_the_placed_records (Argsort0 := keeping) skus ranked run.1 run.2).
  - vm_compute. reflexivity.
  - repeat constructor.
Defined.

Example seven_slots_in_use : total_used run.2 = 7 /\ total_used ranked = 0.
Proof. vm_compute. done. Qed.

Lemma ranking_again_undoes_a_run_demo :
  prepare_locations (row <$> run.2) = prepare_locations locations.
Proof.
  apply (ranking_again_undoes_a_run (Argsort0 := keeping) skus locations run.1 run.2).
  vm_compute. reflexivity.
Defined.

(** The frame with the fallback column only: the engine takes [F2], [F1] and
    then [F3], which has no score, and the records carry these scores. *)
Lemma assign_skus_score_column_demo :
  exists out final,
    assign_skus (Argsort0 := keeping) fallback_frame ranked = inr (out, final)
    /\ Forall2 (fun sku_row r => out_Priority_Score r = AI_Priority_Score sku_row)
         (sort_values_desc (H := keeping) AI_Priority_Score (sku_rows fallback_frame)) out.
Proof.
  apply (proj1 (proj2 (assign_skus_score_column (Argsort0 := keeping)
                         fallback_frame ranked))); reflexivity.
Defined.

Example fallback_frame_run :
  (fun r => (out_SKU_ID r, out_Priority_Score r))
    <$> match assign_skus (Argsort0 := keeping) fallback_frame ranked with
        | inr (out, _) => out
        | inl _ => []
        end
  = [(Str "F2", Val 30); (Str "F1", Val 10); (Str "F3", VNaN)]
  /\ (main (Argsort0 := keeping) fallback_frame locations {| output_file := None |}).1
     = inl (ValueError missing_score_message).
Proof. vm_compute. done. Qed.

(** The program on the example: eight SKUs, seven assigned, one not. *)
Lemma main_reports_what_it_writes_demo :
  exists out final assigned unassigned,
    assign_skus (Argsort0 := keeping) skus (prepare_locations locations) = inr (out, final)
    /\ main (Argsort0 := keeping) skus locations {| output_file := None |}
       = (inr (length (sku_rows skus), assigned, unassigned),
          {| output_file := Some out |})
    /\ length out = length (sku_rows skus)
    /\ assigned = length (filter (fun r => isna (out_Location_ID r) = false) out)
    /\ unassigned = length (filter (fun r => isna (out_Location_ID r) = true) out)
    /\ (assigned + unassigned = length (sku_rows skus))%nat.
Proof.
  apply (main_reports_what_it_writes (Argsort0 := keeping) skus locations).
  - reflexivity.
  - discriminate.
Defined.

Example main_on_the_example :
  (main (Argsort0 := keeping) skus locations {| output_file := None |}).1
  = inr (8, 7, 1)%nat.
Proof. vm_compute. reflexivity. Qed.

(** The program on the table without rows. *)
Lemma main_fails_after_writing_an_empty_table_demo :
  main (Argsort0 := keeping) no_skus locations {| output_file := None |}
  = (inl (KeyError "Location_ID"), {| output_file := Some [] |}).
Proof.
  apply (main_fails_after_writing_an_empty_table (Argsort0 := keeping)); reflexivity.
Defined.

(** The scores of the example are distinct: the tie-keeping and the
    tie-reversing argsort give the same run. *)
Lemma distinct_scores_fix_the_order_demo :
  processing_order (Argsort0 := keeping) skus = processing_order (Argsort0 := reversing) skus
  /\ forall loc_df : list (RankedLoc Z Z),
       assign_skus (Argsort0 := keeping) skus loc_df
       = assign_skus (Argsort0 := reversing) skus loc_df.
Proof.
  apply (distinct_scores_fix_the_order (LevelT := Z) (RackT := Z) keeping reversing skus).
  intros r1 r2 k1 k2 H1 H2 Hk1 Hk2.
  repeat (apply elem_of_cons in H1 as [->|H1]); [..|by apply elem_of_nil in H1];
    repeat (apply elem_of_cons in H2 as [->|H2]); try (by apply elem_of_nil in H2);
    vm_compute in Hk1, Hk2; try discriminate;
    injection Hk1 as <-; injection Hk2 as <-; vm_compute; intros; congruence.
Defined.

(** [B] is left unplaced and [N], taken after it, goes to [L2]: [B] cannot be
    stored there. *)
Lemma later_skus_take_nothing_from_an_unplaced_one_demo :
  exists loc_row,
    loc_row ∈ ranked
    /\ placed (sku_columns skus) sku_n (add_columns l2)
       = placed (sku_columns skus) sku_n loc_row
    /\ can_store sku_n loc_row = true
    /\ can_store sku_b loc_row = false.
Proof.
  apply (later_skus_take_nothing_from_an_unplaced_one (Argsort0 := keeping)
           skus ranked [s1; s2; s3; s4; sku_a; sku_c] sku_b [] sku_n []
           (take 6 run.1) (unplaced (sku_columns skus) sku_b) []
           (placed (sku_columns skus) sku_n (add_columns l2)) [] run.2).
  - vm_compute. reflexivity.
  - vm_compute. reflexivity.
  - reflexivity.
  - reflexivity.
  - repeat constructor.
  - reflexivity.
  - reflexivity.
Defined.

End MoreExamples.
